(** * Data collector agent: collection loop, drain worker and storage sinks

    A shallow embedding of [collectors/base.py], [core/agent.py],
    [core/storage.py], [core/utils.py] and [core/exceptions.py], and of the
    class statements of the collector modules, with the
    properties of the ingestion layer stated and proved over it.

    Layout: the embedding comes first (one module per source file), the
    lemmas and theorems follow. *)

From Stdlib Require Import ZArith Ascii String List Bool Lia.
From Stdlib Require Import SpecFloat.
From stdpp Require Import gmap strings list fin_maps.

Open Scope string_scope.
Open Scope list_scope.
Open Scope nat_scope.

(* ===================================================================== *)
(** * Python values *)
(* ===================================================================== *)

(** The values a collector puts into a record.  [PFloat] carries an IEEE-754
    value ([spec_float] has the zeros, infinities and NaN); [POther] stands
    for an object of any other class (a [datetime], a [bytes], a [tuple]),
    named by its class.  A [dict] is a finite map from its string keys; the
    insertion order of a Python [dict] is not kept. *)
#[warnings="-register-all"]
Inductive pyval : Type :=
  | PNone
  | PBool (b : bool)
  | PInt (z : Z)
  | PFloat (f : spec_float)
  | PStr (s : string)
  | PList (items : list pyval)
  | PDict (d : gmap string pyval)
  | POther (class_name : string).

(** A record is the [Dict] the collectors produce. *)
Abbreviation record := (gmap string pyval).

(** The classes the storage layer tests with [isinstance]. *)
Inductive pyclass : Type := Cstr | Cint | Cfloat | Clist | Cdict.

(** [isinstance(value, cls)].  [bool] is a subclass of [int], so
    [isinstance(True, int)] holds. *)
Definition isinstance (v : pyval) (c : pyclass) : bool :=
  match c, v with
  | Cstr, PStr _ => true
  | Cint, PInt _ => true
  | Cint, PBool _ => true
  | Cfloat, PFloat _ => true
  | Clist, PList _ => true
  | Cdict, PDict _ => true
  | _, _ => false
  end.

(** [isinstance(value, (c1, c2, ...))]. *)
Definition isinstance_any (v : pyval) (cs : list pyclass) : bool :=
  existsb (isinstance v) cs.

(** [value is None]. *)
Definition is_None (v : pyval) : bool :=
  match v with PNone => true | _ => false end.

(** The elements iterated by [for item in value] when [value] is a list. *)
Definition list_items (v : pyval) : list pyval :=
  match v with PList items => items | _ => [] end.

(** Truth value of an object, as tested by [if data:]. *)
Definition truthy (v : pyval) : bool :=
  match v with
  | PNone => false
  | PBool b => b
  | PInt z => negb (z =? 0)%Z
  | PFloat (S754_zero _) => false
  | PFloat _ => true
  | PStr s => negb (String.eqb s "")
  | PList items => match items with [] => false | _ => true end
  | PDict d => negb (bool_decide (d = ∅))
  | POther _ => true
  end.

(** [data.get(key, default)]. *)
Definition dict_get (data : record) (key : string) (default : pyval) : pyval :=
  match data !! key with
  | Some v => v
  | None => default
  end.

(** [json.dump]/[json.dumps] accept the JSON kinds only and raise
    [TypeError] on any other object, however deeply nested. *)
Fixpoint json_serializable (v : pyval) : bool :=
  match v with
  | POther _ => false
  | PList items => forallb json_serializable items
  | PDict d => map_fold (λ _ x acc, json_serializable x && acc) true d
  | _ => true
  end.

(* ===================================================================== *)
(** * core/exceptions.py, and a result type for code that may raise *)
(* ===================================================================== *)

Module Exceptions.

(** The project's exception classes, and [PyException cls msg] for an
    instance of any other subclass of [Exception] raised by the
    interpreter or a library. *)
Inductive exn : Type :=
  | ConfigurationError (msg : string)
  | DataCollectionError (msg : string)
  | StorageError (msg : string)
  | CaptchaError (msg : string)
  | PyException (cls : string) (msg : string).

(** [str(e)], as interpolated by [f"...{e}"]. *)
Definition exn_str (e : exn) : string :=
  match e with
  | ConfigurationError m | DataCollectionError m
  | StorageError m | CaptchaError m | PyException _ m => m
  end.

End Exceptions.
Export Exceptions.

(** Outcome of a call: a returned value or a raised exception. *)
Inductive result (A : Type) : Type :=
  | Ok (a : A)
  | Raise (e : exn).
Arguments Ok {A} a.
Arguments Raise {A} e.

Definition is_Ok {A} (r : result A) : bool :=
  match r with Ok _ => true | Raise _ => false end.

(** Stateful code that may raise: the state reached is kept on both
    outcomes, as the effects of a Python call are when it raises. *)
Definition M (S A : Type) : Type := S → result A * S.

Definition ret {S A} (a : A) : M S A := λ s, (Ok a, s).

Definition raise {S A} (e : exn) : M S A := λ s, (Raise e, s).

Definition bind {S A B} (m : M S A) (k : A → M S B) : M S B :=
  λ s, match m s with
       | (Ok a, s') => k a s'
       | (Raise e, s') => (Raise e, s')
       end.

(** [try: body except Exception as e: handler(e)]. *)
Definition try_except {S A} (body : M S A) (handler : exn → M S A) : M S A :=
  λ s, match body s with
       | (Ok a, s') => (Ok a, s')
       | (Raise e, s') => handler e s'
       end.

(** [try: body finally: final].  The [finally] suite always runs; an
    exception raised by it replaces the outcome of the body. *)
Definition try_finally {S A} (body : M S A) (final : M S unit) : M S A :=
  λ s, let '(r, s') := body s in
       match final s' with
       | (Ok _, s'') => (r, s'')
       | (Raise e, s'') => (Raise e, s'')
       end.

(** Lifting of a pure, possibly raising, computation. *)
Definition lift {S A} (r : result A) : M S A := λ s, (r, s).

(** A state update that cannot raise. *)
Definition modify {S} (f : S → S) : M S unit := λ s, (Ok tt, f s).

Declare Scope py_scope.
Delimit Scope py_scope with py.
Notation "'let*' x ':=' m 'in' k" := (bind m (λ x, k))
  (at level 10, x name, m at level 100, k at level 200) : py_scope.
Notation "m ';;' k" := (bind m (λ _, k))
  (at level 100, k at level 200, right associativity) : py_scope.

(** Python's built-in [str], as applied by an f-string.  On a [str] it is
    the identity; its rendering of the other classes ([repr] of floats,
    lists, dicts and arbitrary objects) belongs to the interpreter and is a
    parameter of the model. *)
Class Interp : Type := { str_other : pyval → string }.

Definition py_str `{Interp} (v : pyval) : string :=
  match v with
  | PStr s => s
  | _ => str_other v
  end.

(* ===================================================================== *)
(** * core/storage.py: [DataStorage], the file and CSV sinks *)
(* ===================================================================== *)

Module DataStorage.

(** ** posixpath and the file system *)

Definition startswith_slash (s : string) : bool :=
  match s with
  | String c _ => Ascii.eqb c "/"%char
  | EmptyString => false
  end.

Fixpoint endswith_slash (s : string) : bool :=
  match s with
  | EmptyString => false
  | String c EmptyString => Ascii.eqb c "/"%char
  | String _ rest => endswith_slash rest
  end.

(** One step of [os.path.join]: an absolute component restarts the path,
    otherwise it is appended after exactly one separator. *)
Definition path_join (path b : string) : string :=
  if startswith_slash b then b
  else if String.eqb path "" || endswith_slash path then path +:+ b
  else path +:+ "/" +:+ b.

(** [os.path.join(a, *p)]; a component that is not a [str] raises
    [TypeError]. *)
Fixpoint os_path_join (a : string) (p : list pyval) : result string :=
  match p with
  | [] => Ok a
  | PStr b :: rest => os_path_join (path_join a b) rest
  | _ :: _ => Raise (PyException "TypeError"
                "expected str, bytes or os.PathLike object")
  end.

(** [s.replace(old, new)] for one-character [old] and [new]. *)
Fixpoint str_replace (old new : Ascii.ascii) (s : string) : string :=
  match s with
  | EmptyString => EmptyString
  | String c rest =>
      String (if Ascii.eqb c old then new else c) (str_replace old new rest)
  end.

(** What has been written to a file, in order: a complete JSON document,
    the beginning of one whose serialisation raised, a CSV header line
    (its column names) or a CSV data line (its cells by column). *)
Inductive chunk : Type :=
  | JsonDoc (doc : record)
  | JsonPartial
  | CsvHeader (columns : gset string)
  | CsvRow (cells : record).

(** The file system under [data_dir], and the wall clock read by
    [strftime("%Y%m%d_%H%M%S")].  Operating-system failures (permissions,
    a full disk) are outside the model. *)
Record filesystem : Type := {
  fs_dirs : gset string;
  fs_files : gmap string (list chunk);
  fs_clock : string;
}.

(** [os.makedirs(directory, exist_ok=True)]. *)
Definition makedirs (directory : string) : M filesystem unit :=
  modify (λ fs, {| fs_dirs := {[directory]} ∪ fs_dirs fs;
                   fs_files := fs_files fs;
                   fs_clock := fs_clock fs |}).

(** [os.path.isfile(filepath)]. *)
Definition isfile (filepath : string) (fs : filesystem) : bool :=
  bool_decide (is_Some (fs_files fs !! filepath)).

(** [open(filepath, 'w')] followed by one write. *)
Definition write_file (filepath : string) (c : chunk) : M filesystem unit :=
  modify (λ fs, {| fs_dirs := fs_dirs fs;
                   fs_files := <[filepath := [c]]> (fs_files fs);
                   fs_clock := fs_clock fs |}).

(** [open(filepath, 'a')] followed by one write. *)
Definition append_file (filepath : string) (c : chunk) : M filesystem unit :=
  modify (λ fs, {| fs_dirs := fs_dirs fs;
                   fs_files := <[filepath :=
                                   (default [] (fs_files fs !! filepath)
                                      ++ [c])%list]>
                                 (fs_files fs);
                   fs_clock := fs_clock fs |}).

(** [json.dump(data, file, ...)] into a file just opened for writing: the
    document, or a truncated file and [TypeError]. *)
Definition json_dump (data : record) (filepath : string) : M filesystem unit :=
  if json_serializable (PDict data)
  then write_file filepath (JsonDoc data)
  else (write_file filepath JsonPartial ;;
        raise (PyException "TypeError" "Object is not JSON serializable"))%py.

(** [pd.json_normalize(data)]: one row, nested dicts flattened into
    dotted column names, lists kept as cells. *)
Fixpoint flatten (prefix : string) (v : pyval) : record :=
  match v with
  | PDict d =>
      map_fold (λ k x acc, flatten (prefix +:+ "." +:+ k) x ∪ acc) ∅ d
  | _ => {[ prefix := v ]}
  end.

Definition json_normalize (data : record) : record :=
  map_fold (λ k x acc, flatten k x ∪ acc) ∅ data.

(** ** The class *)

(** [self.storage_type] and [self.data_dir], as set by [__init__]. *)
Record t : Type := {
  storage_type : string;
  data_dir : string;
}.

Section WithInterp.
Context `{Interp}.

Definition _store_to_file (self : t) (data : record) : M filesystem unit :=
  try_except
    (let source := dict_get data "source" (PStr "unknown") in
     let data_type := dict_get data "data_type" (PStr "general") in
     let* directory :=
       lift (os_path_join (data_dir self) [source; data_type]) in
     makedirs directory ;;
     let* timestamp := (λ fs, (Ok (fs_clock fs), fs)) in
     let* asset :=
       match dict_get data "asset" (PStr "general") with
       | PStr a => ret (str_replace ":"%char "-"%char (str_replace "/"%char "-"%char a))
       | _ => raise (PyException "AttributeError"
                       "object has no attribute 'replace'")
       end in
     let filename := timestamp +:+ "_" +:+ asset +:+ ".json" in
     let* filepath := lift (os_path_join directory [PStr filename]) in
     json_dump data filepath)%py
    (λ e, raise (StorageError
                   ("Error storing data to file: " +:+ exn_str e))).

Definition _store_to_csv (self : t) (data : record) : M filesystem unit :=
  try_except
    (let source := dict_get data "source" (PStr "unknown") in
     let data_type := dict_get data "data_type" (PStr "general") in
     let* directory := lift (os_path_join (data_dir self) [source]) in
     makedirs directory ;;
     let filename := py_str data_type +:+ ".csv" in
     let* filepath := lift (os_path_join directory [PStr filename]) in
     let df := json_normalize data in
     let* exists_ := (λ fs, (Ok (isfile filepath fs), fs)) in
     if negb exists_
     then (write_file filepath (CsvHeader (dom df)) ;;
           append_file filepath (CsvRow df))
     else append_file filepath (CsvRow df))%py
    (λ e, raise (StorageError
                   ("Error storing data to CSV: " +:+ exn_str e))).

Definition store_data (self : t) (data : record) : M filesystem unit :=
  if String.eqb (storage_type self) "file" then _store_to_file self data
  else if String.eqb (storage_type self) "csv" then _store_to_csv self data
  else raise (StorageError
                ("Unsupported storage type: " +:+ storage_type self)).

End WithInterp.

End DataStorage.

(* ===================================================================== *)
(** * core/storage.py: [PostgresDataStorage], the relational sink *)
(* ===================================================================== *)

Module PostgresDataStorage.

(** ** The driver and the database engine

    psycopg2 and the server are not part of the repository.  The model
    keeps what [store_data] depends on: a pool that counts its connections,
    tables with their columns and rows, a transaction that is committed or
    rolled back as a whole, and the statements the engine has been sent.
    Log records of the storage classes are left out. *)

(** A value bound to a placeholder of the INSERT: the object itself, or
    the text [json.dumps] made of a list or a dict. *)
Inductive sqlval : Type :=
  | Bound (v : pyval)
  | JsonText (v : pyval).

(** A table: column name to column type, and the rows inserted so far. *)
Record table : Type := {
  tbl_columns : gmap string string;
  tbl_rows : list (gmap string sqlval);
}.

(** The driver calls made inside the [try] suite of [store_data], by the
    place of the call.  Each of them may raise (a lost connection, a
    statement the engine refuses for a reason the model does not track).
    The calls that clean up, [conn.rollback()], [cursor.close()] and
    [pool.putconn(conn)], are taken to go through; the source has no
    handler around them. *)
Inductive driver_call : Type :=
  | CreateCursor | CreateExecute | CreateCommit
  | InsertCursor | InsertExecute | InsertCommit.

(** What the environment does to the driver calls of one store: [true]
    makes the call raise. *)
Definition faults : Type := driver_call → bool.

Definition no_faults : faults := λ _, false.

(** What the pool and the engine have seen, oldest first. *)
Inductive event : Type :=
  | EvGetconn
  | EvPutconn
  | EvCursor (id : nat)
  | EvCursorClose (id : nat)
  | EvCreateTable (name : string) (schema : gmap string string)
  | EvInsert (name : string) (row : gmap string sqlval)
  | EvCommit
  | EvRollback.

(** The connection pool ([self.pool]) and the database behind it.
    [db_committed] is the durable state, [db_working] what the open
    transaction sees; [pool_busy] counts the connections checked out. *)
Record database : Type := {
  db_committed : gmap string table;
  db_working : gmap string table;
  pool_idle : nat;
  pool_busy : nat;
  pool_minconn : nat;
  pool_maxconn : nat;
  db_open_cursors : gset nat;
  db_next_cursor : nat;
  db_trace : list event;
}.

Definition set_tables (committed working : gmap string table)
    (db : database) : database :=
  {| db_committed := committed; db_working := working;
     pool_idle := pool_idle db; pool_busy := pool_busy db;
     pool_minconn := pool_minconn db; pool_maxconn := pool_maxconn db;
     db_open_cursors := db_open_cursors db;
     db_next_cursor := db_next_cursor db; db_trace := db_trace db |}.

Definition set_pool (idle busy : nat) (db : database) : database :=
  {| db_committed := db_committed db; db_working := db_working db;
     pool_idle := idle; pool_busy := busy;
     pool_minconn := pool_minconn db; pool_maxconn := pool_maxconn db;
     db_open_cursors := db_open_cursors db;
     db_next_cursor := db_next_cursor db; db_trace := db_trace db |}.

Definition set_cursors (open : gset nat) (next : nat)
    (db : database) : database :=
  {| db_committed := db_committed db; db_working := db_working db;
     pool_idle := pool_idle db; pool_busy := pool_busy db;
     pool_minconn := pool_minconn db; pool_maxconn := pool_maxconn db;
     db_open_cursors := open;
     db_next_cursor := next; db_trace := db_trace db |}.

Definition log_event (e : event) (db : database) : database :=
  {| db_committed := db_committed db; db_working := db_working db;
     pool_idle := pool_idle db; pool_busy := pool_busy db;
     pool_minconn := pool_minconn db; pool_maxconn := pool_maxconn db;
     db_open_cursors := db_open_cursors db;
     db_next_cursor := db_next_cursor db;
     db_trace := (db_trace db ++ [e])%list |}.

(** *** Effects on the state *)

(** A connection leaves the pool: an idle one when there is one, a new one
    otherwise. *)
Definition take_conn (db : database) : database :=
  log_event EvGetconn (set_pool (pool_idle db - 1) (pool_busy db + 1) db).

(** A connection comes back: it is kept idle, or closed when [minconn] are
    idle already. *)
Definition give_conn (db : database) : database :=
  log_event EvPutconn
    (set_pool (if pool_idle db <? pool_minconn db
               then pool_idle db + 1 else pool_idle db)
              (pool_busy db - 1) db).

Definition open_cursor (db : database) : database :=
  log_event (EvCursor (db_next_cursor db))
    (set_cursors ({[db_next_cursor db]} ∪ db_open_cursors db)
       (S (db_next_cursor db)) db).

Definition close_cursor (id : nat) (db : database) : database :=
  log_event (EvCursorClose id)
    (set_cursors (db_open_cursors db ∖ {[id]}) (db_next_cursor db) db).

(** The engine's CREATE TABLE IF NOT EXISTS: a table of that name that
    exists is left as it is. *)
Definition create_if_not_exists (name : string) (schema : gmap string string)
    (tables : gmap string table) : gmap string table :=
  match tables !! name with
  | Some _ => tables
  | None => <[name := {| tbl_columns := schema; tbl_rows := [] |}]> tables
  end.

Definition create_table (name : string) (schema : gmap string string)
    (db : database) : database :=
  log_event (EvCreateTable name schema)
    (set_tables (db_committed db)
       (create_if_not_exists name schema (db_working db)) db).

(** The table with one more row. *)
Definition add_row (row : gmap string sqlval) (tbl : table) : table :=
  {| tbl_columns := tbl_columns tbl; tbl_rows := tbl_rows tbl ++ [row] |}.

Definition insert_row (name : string) (row : gmap string sqlval)
    (tbl : table) (db : database) : database :=
  log_event (EvInsert name row)
    (set_tables (db_committed db)
       (<[name := add_row row tbl]> (db_working db)) db).

Definition commit_txn (db : database) : database :=
  log_event EvCommit (set_tables (db_working db) (db_working db) db).

Definition rollback_txn (db : database) : database :=
  log_event EvRollback (set_tables (db_committed db) (db_committed db) db).

(** *** The calls *)

Definition operational_error : exn :=
  PyException "OperationalError" "driver call failed".

(** The call raises when the environment says so. *)
Definition driver_fault (env : faults) (call : driver_call) : M database unit :=
  if env call then raise operational_error else ret tt.

(** [pool.getconn()]: an idle connection, else a new one while fewer than
    [maxconn] are out, else [PoolError]. *)
Definition getconn : M database unit :=
  λ db,
    if (0 <? pool_idle db) || (pool_busy db <? pool_maxconn db)
    then (Ok tt, take_conn db)
    else (Raise (PyException "PoolError" "connection pool exhausted"), db).

(** [pool.putconn(conn)]. *)
Definition putconn : M database unit := modify give_conn.

(** [conn.cursor()]. *)
Definition conn_cursor (env : faults) (call : driver_call) : M database nat :=
  (driver_fault env call ;;
   λ db, (Ok (db_next_cursor db), open_cursor db))%py.

(** [cursor.close()]. *)
Definition cursor_close (id : nat) : M database unit :=
  modify (close_cursor id).

(** [cursor.execute("CREATE TABLE IF NOT EXISTS name (schema)")]. *)
Definition execute_create (env : faults) (name : string)
    (schema : gmap string string) : M database unit :=
  (driver_fault env CreateExecute ;; modify (create_table name schema))%py.

(** [cursor.execute("INSERT INTO name (columns) VALUES (...)", values)]:
    the engine refuses an empty column list, an unknown table and a
    column the table does not have. *)
Definition execute_insert (env : faults) (name : string)
    (row : gmap string sqlval) : M database unit :=
  (driver_fault env InsertExecute ;;
   λ db,
     if bool_decide (row = ∅) then
       (Raise (PyException "SyntaxError" "syntax error at or near )"), db)
     else
       match db_working db !! name with
       | None =>
           (Raise (PyException "UndefinedTable" "relation does not exist"), db)
       | Some tbl =>
           if bool_decide (dom row ⊆ dom (tbl_columns tbl))
           then (Ok tt, insert_row name row tbl db)
           else (Raise (PyException "UndefinedColumn"
                          "column of relation does not exist"), db)
       end)%py.

(** [conn.commit()]. *)
Definition commit (env : faults) (call : driver_call) : M database unit :=
  (driver_fault env call ;; modify commit_txn)%py.

(** [conn.rollback()]. *)
Definition rollback : M database unit := modify rollback_txn.

(** ** Local variables of a method *)

(** A method body runs over its local variable and the database. *)
Definition on_db {L A} (m : M database A) : M (L * database) A :=
  λ '(l, db), let '(r, db') := m db in (r, (l, db')).

Definition get_local {L} : M (L * database) L :=
  λ '(l, db), (Ok l, (l, db)).

Definition set_local {L} (l : L) : M (L * database) unit :=
  λ '(_, db), (Ok tt, (l, db)).

Definition with_local {L A} (init : L) (m : M (L * database) A) : M database A :=
  λ db, let '(r, (_, db')) := m (init, db) in (r, db').

(** ** The class *)

Definition _get_connection : M database unit := getconn.

Definition _put_connection : M database unit := putconn.

(** One iteration of the loop of [_determine_table_schema]: the column
    type entered for [key], or [None] when the iteration [continue]s. *)
Definition schema_entry (key : string) (value : pyval) : option string :=
  if String.eqb key "raw_data" then Some "JSONB"
  else if isinstance value Cstr then Some "TEXT"
  else if isinstance value Cint then Some "BIGINT"
  else if isinstance value Cfloat then Some "DOUBLE PRECISION"
  else if isinstance value Clist then
    if forallb (λ item, isinstance item Cstr) (list_items value)
    then Some "TEXT[]"
    else if forallb (λ item, isinstance_any item [Cint; Cfloat])
              (list_items value)
    then Some "DOUBLE PRECISION[]"
    else Some "JSONB"
  else if isinstance value Cdict then Some "JSONB"
  else if is_None value then None
  else Some "TEXT".

Definition _determine_table_schema (data : record) : gmap string string :=
  map_fold (λ key value schema,
              match schema_entry key value with
              | Some column_type => <[key := column_type]> schema
              | None => schema
              end) ∅ data.

(** The dict comprehension of [store_data]: null fields are dropped,
    lists and dicts go through [json.dumps]. *)
Definition bind_value (v : pyval) : result sqlval :=
  if isinstance_any v [Cdict; Clist] then
    if json_serializable v then Ok (JsonText v)
    else Raise (PyException "TypeError" "Object is not JSON serializable")
  else Ok (Bound v).

Definition data_for_insert (data : record) : result (gmap string sqlval) :=
  map_fold (λ k v acc,
              if is_None v then acc
              else match acc, bind_value v with
                   | Ok row, Ok x => Ok (<[k := x]> row)
                   | Raise e, _ => Raise e
                   | _, Raise e => Raise e
                   end) (Ok ∅) data.

Section WithInterp.
Context `{Interp}.

(** [f"{source}_{data_type}"]. *)
Definition table_name_of (source data_type : pyval) : string :=
  py_str source +:+ "_" +:+ py_str data_type.

Definition _create_table (env : faults) (source data_type : pyval)
    (schema : gmap string string) : M database unit :=
  (let* cursor := conn_cursor env CreateCursor in
   try_finally
     (let table_name := table_name_of source data_type in
      execute_create env table_name schema ;;
      commit env CreateCommit)
     (cursor_close cursor))%py.

Definition store_data (env : faults) (data : record) : M database unit :=
  (_get_connection ;;
   with_local (None : option nat)
     (try_finally
        (try_except
           (let source := dict_get data "source" (PStr "unknown") in
            let data_type := dict_get data "data_type" (PStr "general") in
            let table_name := table_name_of source data_type in
            let schema := _determine_table_schema data in
            on_db (_create_table env source data_type schema) ;;
            let* cursor := on_db (conn_cursor env InsertCursor) in
            set_local (Some cursor) ;;
            let* row := lift (data_for_insert data) in
            on_db (execute_insert env table_name row) ;;
            on_db (commit env InsertCommit))
           (λ e,
              on_db rollback ;;
              raise (StorageError ("Database error: " +:+ exn_str e))))
        (let* cursor := get_local in
         match cursor with
         | Some id => on_db (cursor_close id)
         | None => ret tt
         end ;;
         on_db _put_connection)))%py.

End WithInterp.

End PostgresDataStorage.

(* ===================================================================== *)
(** * Logging *)
(* ===================================================================== *)

Inductive level : Type := DEBUG | INFO | WARNING | ERROR.

(** A log is the list of the records emitted, oldest first. *)
Definition log : Type := list (level * string).

Definition is_error (r : level * string) : bool :=
  match fst r with ERROR => true | _ => false end.

(** Number of records at level [ERROR]. *)
Definition error_count (l : log) : nat := length (List.filter is_error l).

(* ===================================================================== *)
(** * core/utils.py *)
(* ===================================================================== *)

Module Utils.

(** What [solver.solve_and_return_solution()] does once the solver has
    been given the key, the page URL and the site key: it returns an
    object (the token, or [0] when the service reports an error) or
    raises. *)
Definition solver : Type := pyval → string → string → result pyval.

(** [solve_captcha(site_key, url, api_key)], over the log.  [api_key] is
    the value read from the configuration, [None] when there is none. *)
Definition solve_captcha (anticaptcha : solver) (site_key url : string)
    (api_key : pyval) : M log pyval :=
  if negb (truthy api_key) then
    (modify (λ l, l ++ [(ERROR, "No CAPTCHA API key provided.")])%list ;;
     ret (PStr ""))%py
  else
    try_except
      (let* token := lift (anticaptcha api_key url site_key) in
       if truthy token then
         (modify (λ l, l ++ [(INFO, "CAPTCHA solved for " +:+ url)])%list ;;
          ret token)
       else
         (modify (λ l, l ++ [(ERROR, "CAPTCHA solution failed")])%list ;;
          ret (PStr "")))%py
      (λ e,
         modify (λ l, l ++ [(ERROR, "Error solving CAPTCHA: " +:+ exn_str e)])%list ;;
         raise (CaptchaError ("Error solving CAPTCHA: " +:+ exn_str e)))%py.

(** [random.choice(seq)], with the number the generator draws:
    [IndexError] on an empty sequence. *)
Definition random_choice (draw : nat) (seq : list string) : result string :=
  match seq with
  | [] => Raise (PyException "IndexError"
                   "Cannot choose from an empty sequence")
  | first :: _ => Ok (nth (draw mod length seq) seq first)
  end.

Definition default_user_agent : string :=
  "Mozilla/5.0 (Windows NT 10.0; Win64; x64; rv:98.0) Gecko/20100101 Firefox/98.0".

(** [get_random_user_agent(user_agents_file)], over the log.  [opened] is
    what opening and reading the file gives, its lines or the exception
    raised; [strip] is [str.strip]. *)
Definition get_random_user_agent (strip : string → string)
    (user_agents_file : string) (opened : result (list string))
    (draw : nat) : M log string :=
  try_except
    (let* lines := lift opened in
     let user_agents :=
       List.map strip
         (List.filter (λ line, truthy (PStr (strip line))) lines) in
     lift (random_choice draw user_agents))%py
    (λ e,
       match e with
       | PyException cls _ =>
           if String.eqb cls "FileNotFoundError" then
             (modify (λ l, l ++ [(WARNING, "User agents file not found: "
                                             +:+ user_agents_file
                                             +:+ ". Using default.")]) ;;
              ret default_user_agent)%py
           else
             (modify (λ l, l ++ [(WARNING, "Error reading user agents file: "
                                             +:+ exn_str e +:+ ". Using default.")]) ;;
              ret default_user_agent)%py
       | _ =>
           (modify (λ l, l ++ [(WARNING, "Error reading user agents file: "
                                           +:+ exn_str e +:+ ". Using default.")]) ;;
            ret default_user_agent)%py
       end).

End Utils.

(* ===================================================================== *)
(** * collectors/base.py: the collection loop *)
(* ===================================================================== *)

Module BaseDataCollector.

(** One call of [collect_data], the production step of a concrete
    collector: how long it takes on the monotonic clock and how it ends. *)
Record production : Type := {
  duration : Z;
  outcome : result pyval;
}.

(** The collector behind the loop: the production of its [n]-th call. *)
Definition collector : Type := nat → production.

(** Where the thread running [run] stands: about to test the [while]
    condition, inside the [try] statement (the condition held), inside
    [time.sleep(sleep_time)], or past the loop. *)
Inductive pc : Type :=
  | AtTop
  | InCollect
  | InSleep (sleep_time : Z)
  | Exited.

(** What the loop has done, oldest first. *)
Inductive event : Type :=
  | EvCollect (n : nat)
  | EvSleep (sleep_time : Z)
  | EvExit.

(** The collector object, the clock and queue it shares with the rest of
    the process, and the thread running [run].  Times are exact numbers
    of ticks of [time.monotonic()]. *)
Record t : Type := {
  running : bool;
  interval : Z;
  _last_collection_time : Z;
  data_queue : list pyval;
  clock : Z;
  at_pc : pc;
  calls : nat;
  logged : log;
  trace : list event;
}.

Definition update (self : t) (running' : bool) (last' : Z)
    (queue' : list pyval) (clock' : Z) (pc' : pc) (calls' : nat)
    (logged' : log) (trace' : list event) : t :=
  {| running := running'; interval := interval self;
     _last_collection_time := last'; data_queue := queue';
     clock := clock'; at_pc := pc'; calls := calls';
     logged := logged'; trace := trace' |}.

(** [__init__(config, data_queue)] at time [now]. *)
Definition __init__ (interval_ : Z) (queue : list pyval) (now : Z) : t :=
  {| running := false; interval := interval_;
     _last_collection_time := now; data_queue := queue;
     clock := now; at_pc := Exited; calls := 0;
     logged := []; trace := [] |}.

(** The statements of [run] before the loop. *)
Definition run_enter (self : t) : t :=
  update self true (clock self) (data_queue self) (clock self) AtTop
    (calls self) (logged self ++ [(INFO, "starting.")])%list (trace self).

(** [stop()], called from another thread. *)
Definition stop (self : t) : t :=
  update self false (_last_collection_time self) (data_queue self)
    (clock self) (at_pc self) (calls self)
    (logged self ++ [(INFO, "stopping.")])%list (trace self).

(** The [try] statement of the loop body, given what [collect_data] does:
    the queue and the log after it. *)
Definition collect_and_enqueue (p : production) (queue : list pyval)
    (l : log) : list pyval * log :=
  match outcome p with
  | Ok data =>
      if truthy data then
        if isinstance data Clist
        then ((queue ++ list_items data)%list, l)
        else ((queue ++ [data])%list, l)
      else (queue, l)
  | Raise e =>
      (queue, (l ++ [(ERROR, "encountered an error: " +:+ exn_str e)])%list)
  end.

(** The duration computed by [_sleep_until_next_interval] when the clock
    reads [now]. *)
Definition sleep_time_at (self : t) (now : Z) : Z :=
  let elapsed_time := (now - _last_collection_time self)%Z in
  Z.max 0 (interval self - elapsed_time).

(** One move of the thread running [run]:
    - at the top, the [while] test;
    - in the body, the [try] statement, then
      [_sleep_until_next_interval] up to the call of [time.sleep];
    - in the sleep, its end and the assignment of
      [_last_collection_time]. *)
Definition step (c : collector) (self : t) : t :=
  match at_pc self with
  | AtTop =>
      if running self then
        update self (running self) (_last_collection_time self)
          (data_queue self) (clock self) InCollect (calls self)
          (logged self) (trace self ++ [EvCollect (calls self)])%list
      else
        update self (running self) (_last_collection_time self)
          (data_queue self) (clock self) Exited (calls self)
          (logged self) (trace self ++ [EvExit])%list
  | InCollect =>
      let p := c (calls self) in
      let '(queue', logged') :=
        collect_and_enqueue p (data_queue self) (logged self) in
      let now := (clock self + duration p)%Z in
      let sleep_time := sleep_time_at self now in
      update self (running self) (_last_collection_time self)
        queue' now (InSleep sleep_time) (S (calls self))
        (logged' ++ [(DEBUG, "sleeping.")])%list
        (trace self ++ [EvSleep sleep_time])%list
  | InSleep sleep_time =>
      let now := (clock self + sleep_time)%Z in
      update self (running self) now (data_queue self) now AtTop
        (calls self) (logged self) (trace self)
  | Exited => self
  end.

(** What happens next in the process: the loop thread moves, or another
    thread calls [stop]. *)
Inductive action : Type := Tick | Stop.

Definition act (c : collector) (a : action) (self : t) : t :=
  match a with
  | Tick => step c self
  | Stop => stop self
  end.

(** An interleaving of the loop thread with calls of [stop]. *)
Definition exec (c : collector) (schedule : list action) (self : t) : t :=
  fold_left (λ s a, act c a s) schedule self.

(** [run()] under a schedule. *)
Definition run (c : collector) (schedule : list action) (self : t) : t :=
  exec c schedule (run_enter self).

Definition is_sleep (e : event) : bool :=
  match e with EvSleep _ => true | _ => false end.

Definition is_collect (e : event) : bool :=
  match e with EvCollect _ => true | _ => false end.

End BaseDataCollector.

(* ===================================================================== *)
(** * core/agent.py: the drain worker *)
(* ===================================================================== *)

Module DataCollectorAgent.

Section WithSink.
(** The sink object behind [self.data_storage]: its state and its
    [store_data] method. *)
Context {Sink : Type}.
Variable store_data : record → M Sink unit.

(** The agent: queue, storage, the lock guarding the store call, and
    the arguments [store_data] has been called with, oldest first. *)
Record t : Type := {
  running : bool;
  data_queue : list record;
  data_storage : Sink;
  lock_held : bool;
  captcha_api_key : pyval;
  stored : list record;
  logged : log;
}.

Definition on_storage {A} (m : M Sink A) : M t A :=
  λ self, let '(r, s') := m (data_storage self) in
          (r, {| running := running self; data_queue := data_queue self;
                 data_storage := s'; lock_held := lock_held self;
                 captcha_api_key := captcha_api_key self;
                 stored := stored self; logged := logged self |}).

Definition set_lock (b : bool) : M t unit :=
  modify (λ self,
    {| running := running self; data_queue := data_queue self;
       data_storage := data_storage self; lock_held := b;
       captcha_api_key := captcha_api_key self;
       stored := stored self; logged := logged self |}).

Definition note_call (data : record) : M t unit :=
  modify (λ self,
    {| running := running self; data_queue := data_queue self;
       data_storage := data_storage self; lock_held := lock_held self;
       captcha_api_key := captcha_api_key self;
       stored := (stored self ++ [data])%list; logged := logged self |}).

Definition emit (lv : level) (msg : string) : M t unit :=
  modify (λ self,
    {| running := running self; data_queue := data_queue self;
       data_storage := data_storage self; lock_held := lock_held self;
       captcha_api_key := captcha_api_key self;
       stored := stored self;
       logged := (logged self ++ [(lv, msg)])%list |}).

Definition set_queue (q : list record) (self : t) : t :=
  {| running := running self; data_queue := q;
     data_storage := data_storage self; lock_held := lock_held self;
     captcha_api_key := captcha_api_key self;
     stored := stored self; logged := logged self |}.

(** [with self.lock: body]. *)
Definition with_lock {A} (body : M t A) : M t A :=
  (set_lock true ;; try_finally body (set_lock false))%py.

(** The dict [data] after the [if] of [_process_data]: the object that
    is then handed to [store_data].  [now] is the reading of
    [datetime.now(timezone.utc).isoformat()]. *)
Definition with_timestamp (now : string) (data : record) : record :=
  if bool_decide (is_Some (data !! "timestamp")) then data
  else <["timestamp" := PStr now]> data.

(** [_process_data(data)]: the final state of the dict [data], which is
    updated in place, and of the agent.  Nothing is raised. *)
Definition _process_data (now : string) (data : record) (self : t)
    : record * t :=
  let data' := with_timestamp now data in
  (data',
   snd (try_except
          (with_lock (note_call data' ;; on_storage (store_data data')) ;;
           emit DEBUG "Processed data")%py
          (λ e, emit ERROR ("Error in data processing: " +:+ exn_str e))
          self)).

(** One iteration of [_process_data_queue]: [None] when the [while]
    condition fails.  On an empty queue [get] raises [queue.Empty]
    after its timeout and the loop continues. *)
Definition drain_step (now : string) (self : t) : option t :=
  if running self || negb (bool_decide (data_queue self = []))
  then match data_queue self with
       | data :: rest => Some (snd (_process_data now data (set_queue rest self)))
       | [] => Some self
       end
  else None.

(** [_process_data_queue()], for as many iterations of its loop as there
    are readings of the wall clock in [clock]; it ends before that when the
    [while] condition fails. *)
Fixpoint _process_data_queue (clock : list string) (self : t) : t :=
  match clock with
  | [] => self
  | now :: later =>
      match drain_step now self with
      | Some self' => _process_data_queue later self'
      | None => self
      end
  end.

End WithSink.

Arguments t Sink : clear implicits.

(** [solve_captcha(site_key, url)], the solver handed to the collectors. *)
Definition solve_captcha {Sink} (anticaptcha : Utils.solver) (self : t Sink)
    (site_key url : string) : M log pyval :=
  Utils.solve_captcha anticaptcha site_key url (captcha_api_key self).







End DataCollectorAgent.

(* ===================================================================== *)
(** * collectors/: the collector classes *)
(* ===================================================================== *)

Module Collectors.



End Collectors.

(* ===================================================================== *)
(** * Properties *)
(* ===================================================================== *)

Module PG := PostgresDataStorage.
Module FS := DataStorage.
Module Loop := BaseDataCollector.
Module Agent := DataCollectorAgent.


(** ** Vocabulary of the statements *)

(** The kinds of list the inference rules tell apart. *)
Definition is_string (v : pyval) : bool :=
  match v with PStr _ => true | _ => false end.

(** An integer or a floating-point number. *)
Definition is_number (v : pyval) : bool :=
  match v with PInt _ | PFloat _ => true | _ => false end.

(** An integer, a floating-point number or a boolean. *)
Definition is_number_or_bool (v : pyval) : bool :=
  match v with PInt _ | PFloat _ | PBool _ => true | _ => false end.

(** The record of the schema-inference example. *)
Definition example_record : record :=
  <["source" := PStr "x"]> (<["data_type" := PStr "y"]> (
  <["count" := PInt 3]> (<["label" := PStr "z"]> (
  <["ratio" := PFloat (S754_finite false 6755399441055744 (-52))]> (
  <["tags" := PList [PStr "a"; PStr "b"]]> (
  <["meta" := PDict {[ "k" := PInt 1 ]}]> ∅)))))).

(** At the [while] test and during the production call the time recorded
    in [_last_collection_time] is the current reading of the clock; during
    the sleep, the duration slept is the one computed from it. *)
Definition loop_invariant (s : Loop.t) : Prop :=
  match Loop.at_pc s with
  | Loop.AtTop | Loop.InCollect => Loop._last_collection_time s = Loop.clock s
  | Loop.InSleep _ | Loop.Exited => True
  end.

(** Number of the events of a trace that satisfy [f]. *)
Definition count_events (f : Loop.event → bool) (evs : list Loop.event) : nat :=
  length (List.filter f evs).

(** A collector whose production step raises on every call. *)
Definition always_fails (c : Loop.collector) : Prop :=
  ∀ n, ∃ e, Loop.outcome (c n) = Raise e.

(** A collector that needs ten ticks and returns an empty list. *)
Definition quiet_collector : Loop.collector :=
  λ _, {| Loop.duration := 10; Loop.outcome := Ok (PList []) |}.

(** A collector that raises on every call. *)
Definition failing_collector : Loop.collector :=
  λ _, {| Loop.duration := 1;
          Loop.outcome := Raise (DataCollectionError "unreachable host") |}.

(** A collector object with the default interval of sixty, made at time 0. *)
Definition fresh_collector : Loop.t := Loop.__init__ 60 [] 0.

(** Sleeps the loop may still begin once the flag is down: one when [stop]
    came during the production call, none otherwise. *)
Definition sleeps_left (p : Loop.pc) : nat :=
  match p with Loop.InCollect => 1 | _ => 0 end.

(** Moves of the thread from [p] to the exit once the flag is down. *)
Definition moves_to_exit (p : Loop.pc) : nat :=
  match p with
  | Loop.InCollect => 3
  | Loop.InSleep _ => 2
  | Loop.AtTop => 1
  | Loop.Exited => 0
  end.

(** Time the loop still spends before it exits once the flag is down: the
    rest of the production call and the sleep that follows it, or the sleep
    under way. *)
Definition time_to_exit (c : Loop.collector) (s : Loop.t) : Z :=
  match Loop.at_pc s with
  | Loop.InCollect =>
      let d := Loop.duration (c (Loop.calls s)) in
      d + Loop.sleep_time_at s (Loop.clock s + d)
  | Loop.InSleep sleep_time => sleep_time
  | Loop.AtTop | Loop.Exited => 0
  end.

(** Number of moves of the loop thread in a schedule. *)
Definition ticks (schedule : list Loop.action) : nat :=
  length (List.filter (λ a, match a with Loop.Tick => true | _ => false end)
            schedule).

(** The state in which [stop] arrives during the first production call. *)
Definition stopped_during_call : Loop.t :=
  Loop.run quiet_collector [Loop.Tick; Loop.Stop] fresh_collector.

(** A sink that accepts everything and keeps what it was given. *)
Definition list_sink : record → M (list record) unit :=
  λ data, modify (λ kept, kept ++ [data]).

(** An agent with an empty queue over [list_sink]. *)
Definition idle_agent : Agent.t (list record) :=
  {| Agent.running := true; Agent.data_queue := [];
     Agent.data_storage := []; Agent.lock_held := false;
     Agent.captcha_api_key := PStr "key";
     Agent.stored := []; Agent.logged := [] |}.


(** The pool can hand out a connection. *)
Definition pool_available (db : PG.database) : Prop :=
  0 < PG.pool_idle db ∨ PG.pool_busy db < PG.pool_maxconn db.

(** No transaction is open: the working state is the committed one. *)
Definition quiescent (db : PG.database) : Prop :=
  PG.db_working db = PG.db_committed db.


(** The three driver calls of [_create_table] go through. *)
Definition creates_succeed (env : PG.faults) : Prop :=
  env PG.CreateCursor = false ∧ env PG.CreateExecute = false ∧
  env PG.CreateCommit = false.

(** The table a record goes to. *)
Definition table_of `{Interp} (data : record) : string :=
  PG.table_name_of (dict_get data "source" (PStr "unknown"))
    (dict_get data "data_type" (PStr "general")).







(** [if cursor: cursor.close()]. *)
Definition close_opt (cursor : option nat) (db : PG.database) : PG.database :=
  match cursor with
  | Some id => PG.close_cursor id db
  | None => db
  end.

(** The [except] and [finally] suites of [store_data], entered with the
    exception [e] in the state [db]. *)
Definition store_failed (cursor : option nat) (e : exn) (db : PG.database)
    : result unit * PG.database :=
  (Raise (StorageError ("Database error: " +:+ exn_str e)),
   PG.give_conn (close_opt cursor (PG.rollback_txn db))).

(** The paths through [store_data] once a connection is checked out, one
    per place where the [try] suite can raise; [store_data_unfold] shows
    that this is what [store_data] computes. *)
Definition store_data_cases `{Interp} (env : PG.faults) (data : record)
    (db : PG.database) : result unit * PG.database :=
  let db1 := PG.take_conn db in
  let name := table_of data in
  let schema := PG._determine_table_schema data in
  let id0 := PG.db_next_cursor db1 in
  let c0 := PG.open_cursor db1 in
  let c1 := PG.create_table name schema c0 in
  let c2 := PG.close_cursor id0 (PG.commit_txn c1) in
  let id1 := PG.db_next_cursor c2 in
  let i0 := PG.open_cursor c2 in
  if env PG.CreateCursor then store_failed None PG.operational_error db1
  else if env PG.CreateExecute then
    store_failed None PG.operational_error (PG.close_cursor id0 c0)
  else if env PG.CreateCommit then
    store_failed None PG.operational_error (PG.close_cursor id0 c1)
  else if env PG.InsertCursor then store_failed None PG.operational_error c2
  else
    match PG.data_for_insert data with
    | Raise e => store_failed (Some id1) e i0
    | Ok row =>
        if env PG.InsertExecute then
          store_failed (Some id1) PG.operational_error i0
        else if bool_decide (row = ∅) then
          store_failed (Some id1)
            (PyException "SyntaxError" "syntax error at or near )") i0
        else
          match PG.db_working i0 !! name with
          | None =>
              store_failed (Some id1)
                (PyException "UndefinedTable" "relation does not exist") i0
          | Some tbl =>
              if bool_decide (dom row ⊆ dom (PG.tbl_columns tbl)) then
                if env PG.InsertCommit then
                  store_failed (Some id1) PG.operational_error
                    (PG.insert_row name row tbl i0)
                else
                  (Ok tt,
                   PG.give_conn
                     (PG.close_cursor id1
                        (PG.commit_txn (PG.insert_row name row tbl i0))))
              else
                store_failed (Some id1)
                  (PyException "UndefinedColumn"
                     "column of relation does not exist") i0
          end
    end.

(** An interpreter for the examples; they only format strings. *)
Definition example_interp : Interp := {| str_other := λ _, "<object>" |}.

(** A pool with one idle connection over an empty database. *)
Definition fresh_database : PG.database :=
  {| PG.db_committed := ∅; PG.db_working := ∅;
     PG.pool_idle := 1; PG.pool_busy := 0;
     PG.pool_minconn := 1; PG.pool_maxconn := 10;
     PG.db_open_cursors := ∅; PG.db_next_cursor := 0;
     PG.db_trace := [] |}.


(** A first record, and a later record of the same source and data type
    with one more field. *)
Definition first_record : record :=
  <["source" := PStr "x"]> (<["data_type" := PStr "y"]> (
  <["count" := PInt 3]> ∅)).

Definition later_record : record :=
  <["extra" := PStr "new"]> first_record.



(** A record with neither source nor data type. *)
Definition anonymous_record : record :=
  <["asset" := PStr "BTC/USD"]> (<["price" := PInt 42]> ∅).

(** A file sink with the default directory, over an empty file system. *)
Definition file_sink : FS.t :=
  {| FS.storage_type := "file"; FS.data_dir := "data" |}.

Definition empty_filesystem : FS.filesystem :=
  {| FS.fs_dirs := ∅; FS.fs_files := ∅; FS.fs_clock := "20240101_000000" |}.

(** An environment in which the commit of the INSERT fails. *)
Definition commit_fails : PG.faults :=
  λ call, match call with PG.InsertCommit => true | _ => false end.

(** ** Vocabulary of the further properties *)

(** What the INSERT binds for a field: nothing for a null, the JSON text of
    a list or a dict, the object itself otherwise. *)
Definition binding (v : pyval) : option PG.sqlval :=
  if is_None v then None
  else if isinstance_any v [Cdict; Clist] then Some (PG.JsonText v)
  else Some (PG.Bound v).

(** The field can be bound: it is null, or not a list or dict, or a list or
    dict that [json.dumps] accepts. *)
Definition bindable (v : pyval) : bool :=
  is_None v || negb (isinstance_any v [Cdict; Clist]) || json_serializable v.

(** The exception of [json.dumps] and [json.dump]. *)
Definition not_serializable : exn :=
  PyException "TypeError" "Object is not JSON serializable".

(** The name [_store_to_file] gives the file of a record whose asset is
    [a], written when the clock reads [stamp]. *)
Definition file_name (stamp a : string) : string :=
  stamp +:+ "_" +:+ FS.str_replace ":" "-" (FS.str_replace "/" "-" a)
    +:+ ".json".


(** The record names the source [s] and the data type [d], or leaves the
    one or the other to its default. *)
Definition goes_to (s d : string) (data : record) : Prop :=
  dict_get data "source" (PStr "unknown") = PStr s ∧
  dict_get data "data_type" (PStr "general") = PStr d.

(** What one production call adds to the queue: the items [run] puts, in
    order. *)
Definition delivered (p : Loop.production) : list pyval :=
  fst (Loop.collect_and_enqueue p [] []).

(** What the calls numbered [first], ..., [first + n - 1] of the collector
    [c] add to the queue. *)
Definition deliveries (c : Loop.collector) (first n : nat) : list pyval :=
  flat_map (λ k, delivered (c k)) (seq first n).

(** The time the cycles of the calls numbered [first], ...,
    [first + n - 1] take under the interval [I]: each the longer of the
    interval and the call. *)
Definition cycles_time (I : Z) (c : Loop.collector) (first n : nat) : Z :=
  fold_right Z.add 0%Z
    (map (λ k, Z.max I (Loop.duration (c k))) (seq first n)).








(** A second record of the same source, data type and asset. *)
Definition repriced_record : record :=
  <["price" := PInt 43]> anonymous_record.

(** A record whose source is an absolute path. *)
Definition absolute_record : record :=
  <["source" := PStr "/tmp"]> anonymous_record.

(** A sink that refuses everything. *)
Definition full_sink : record → M (list record) unit :=
  λ _, raise (StorageError "disk full").

(** A running agent with two records queued, and the same agent after
    [stop]. *)
Definition busy_agent : Agent.t (list record) :=
  Agent.set_queue [first_record; later_record] idle_agent.

Definition stopped_agent : Agent.t (list record) :=
  {| Agent.running := false;
     Agent.data_queue := [first_record; later_record];
     Agent.data_storage := []; Agent.lock_held := false;
     Agent.captcha_api_key := PStr "key";
     Agent.stored := []; Agent.logged := [] |}.

(** A running agent over the empty file system, with one record queued. *)
Definition file_agent : Agent.t FS.filesystem :=
  {| Agent.running := true; Agent.data_queue := [anonymous_record];
     Agent.data_storage := empty_filesystem; Agent.lock_held := false;
     Agent.captcha_api_key := PNone;
     Agent.stored := []; Agent.logged := [] |}.

(* ===================================================================== *)
(** * Lemmas and theorems *)
(* ===================================================================== *)

(** ** Schema inference *)

(** The schema has an entry for [k] exactly when the record has a field
    [k] for which the loop body enters one. *)
Lemma determine_table_schema_lookup (data : record) (k : string) :
  PG._determine_table_schema data !! k = data !! k ≫= PG.schema_entry k.
Proof.
  unfold PG._determine_table_schema.
  apply (map_fold_weak_ind
           (λ (schema : gmap string string) (m : record),
              schema !! k = m !! k ≫= PG.schema_entry k)).
  - by rewrite !lookup_empty.
  - intros j y m schema Hfresh IH.
    destruct (decide (j = k)) as [->|Hne].
    + rewrite lookup_insert_eq. simpl.
      destruct (PG.schema_entry k y) as [ty|].
      * by rewrite lookup_insert_eq.
      * by rewrite IH, Hfresh.
    + rewrite (lookup_insert_ne m j k y) by done.
      destruct (PG.schema_entry j y); [|done].
      by rewrite lookup_insert_ne.
Qed.

Lemma determine_table_schema_field (data : record) (k : string) (v : pyval) :
  data !! k = Some v →
  PG._determine_table_schema data !! k = PG.schema_entry k v.
Proof. intros Hk. by rewrite determine_table_schema_lookup, Hk. Qed.

(** No column is invented: every column of the schema is a field. *)
Lemma determine_table_schema_dom (data : record) :
  dom (PG._determine_table_schema data) ⊆ dom data.
Proof.
  intros k [ty Hty]%elem_of_dom.
  rewrite determine_table_schema_lookup in Hty.
  apply elem_of_dom. destruct (data !! k); [eauto | discriminate].
Qed.

Lemma schema_entry_raw_data (v : pyval) :
  PG.schema_entry "raw_data" v = Some "JSONB".
Proof. reflexivity. Qed.

Lemma schema_entry_not_raw (k : string) (v : pyval) :
  k ≠ "raw_data" →
  PG.schema_entry k v =
    if isinstance v Cstr then Some "TEXT"
    else if isinstance v Cint then Some "BIGINT"
    else if isinstance v Cfloat then Some "DOUBLE PRECISION"
    else if isinstance v Clist then
      if forallb (λ item, isinstance item Cstr) (list_items v)
      then Some "TEXT[]"
      else if forallb (λ item, isinstance_any item [Cint; Cfloat])
                (list_items v)
      then Some "DOUBLE PRECISION[]"
      else Some "JSONB"
    else if isinstance v Cdict then Some "JSONB"
    else if is_None v then None
    else Some "TEXT".
Proof.
  intros Hk. unfold PG.schema_entry.
  destruct (String.eqb_spec k "raw_data"); [contradiction | reflexivity].
Qed.

Lemma forallb_pointwise {A} (f g : A → bool) (l : list A) :
  (∀ x, f x = g x) → forallb f l = forallb g l.
Proof. intros Hfg. induction l as [|x l IH]; simpl; [done|]. by rewrite Hfg, IH. Qed.

Lemma forallb_isinstance_str (items : list pyval) :
  forallb (λ item, isinstance item Cstr) items = forallb is_string items.
Proof. apply forallb_pointwise. by intros []. Qed.

Lemma forallb_isinstance_num (items : list pyval) :
  forallb (λ item, isinstance_any item [Cint; Cfloat]) items
  = forallb is_number_or_bool items.
Proof. apply forallb_pointwise. by intros []. Qed.

Example example_record_schema :
  PG._determine_table_schema example_record =
    <["source" := "TEXT"]> (<["data_type" := "TEXT"]> (
    <["count" := "BIGINT"]> (<["label" := "TEXT"]> (
    <["ratio" := "DOUBLE PRECISION"]> (<["tags" := "TEXT[]"]> (
    <["meta" := "JSONB"]> ∅)))))).
Proof. by vm_compute. Qed.

(** C1, as amended.  For every record, schema inference maps each field by
    the first rule that applies: a field named raw_data to JSONB whatever
    its value (null included); any other field by its value: a string to
    TEXT, an integer to BIGINT, a floating-point number to DOUBLE PRECISION,
    a list of strings (the empty list included) to TEXT[], any other list
    whose items are all integers, floats or booleans to DOUBLE PRECISION[],
    any remaining list or a nested mapping to JSONB, and a null-valued field
    not named raw_data is omitted from the schema; the schema has no column
    that is not a field.  For the example record, count maps to BIGINT,
    label to TEXT, ratio to DOUBLE PRECISION, tags to TEXT[] and meta to
    JSONB. *)
Theorem C1_schema_inference_rules :
  (∀ (data : record) (k : string) (v : pyval),
     data !! k = Some v →
     let schema := PG._determine_table_schema data in
     (k = "raw_data" → schema !! k = Some "JSONB") ∧
     (k ≠ "raw_data" →
        (∀ s, v = PStr s → schema !! k = Some "TEXT") ∧
        (∀ z, v = PInt z → schema !! k = Some "BIGINT") ∧
        (∀ f, v = PFloat f → schema !! k = Some "DOUBLE PRECISION") ∧
        (∀ items, v = PList items →
           forallb is_string items = true →
           schema !! k = Some "TEXT[]") ∧
        (∀ items, v = PList items →
           forallb is_string items = false →
           forallb is_number_or_bool items = true →
           schema !! k = Some "DOUBLE PRECISION[]") ∧
        (∀ items, v = PList items →
           forallb is_string items = false →
           forallb is_number_or_bool items = false →
           schema !! k = Some "JSONB") ∧
        (∀ d, v = PDict d → schema !! k = Some "JSONB") ∧
        (v = PNone → schema !! k = None))) ∧
  (∀ data : record, dom (PG._determine_table_schema data) ⊆ dom data) ∧
  (let schema := PG._determine_table_schema example_record in
   schema !! "count" = Some "BIGINT" ∧
   schema !! "label" = Some "TEXT" ∧
   schema !! "ratio" = Some "DOUBLE PRECISION" ∧
   schema !! "tags" = Some "TEXT[]" ∧
   schema !! "meta" = Some "JSONB").
Proof.
  split; [|split].
  - intros data k v Hk schema. subst schema.
    rewrite (determine_table_schema_field data k v Hk).
    split.
    + intros ->. apply schema_entry_raw_data.
    + intros Hne. rewrite (schema_entry_not_raw k v Hne).
      repeat split.
      * by intros s ->.
      * by intros z ->.
      * by intros f ->.
      * intros items -> Hs. simpl.
        by rewrite forallb_isinstance_str, Hs.
      * intros items -> Hs Hn. simpl.
        by rewrite forallb_isinstance_str, Hs, forallb_isinstance_num, Hn.
      * intros items -> Hs Hn. simpl.
        by rewrite forallb_isinstance_str, Hs, forallb_isinstance_num, Hn.
      * by intros d ->.
      * by intros ->.
  - apply determine_table_schema_dom.
  - rewrite example_record_schema. by vm_compute.
Qed.

(** The rules at a record with a list of two strings. *)
Lemma C1_schema_inference_rules_witness :
  PG._determine_table_schema {[ "tags" := PList [PStr "a"; PStr "b"] ]}
    !! "tags" = Some "TEXT[]".
Proof.
  pose proof C1_schema_inference_rules as [Hrules _].
  specialize (Hrules {[ "tags" := PList [PStr "a"; PStr "b"] ]} "tags"
                (PList [PStr "a"; PStr "b"]) eq_refl).
  destruct Hrules as [_ Hrest].
  destruct (Hrest ltac:(discriminate)) as (_ & _ & _ & Htext & _).
  exact (Htext [PStr "a"; PStr "b"] eq_refl eq_refl).
Defined.

(** C1 as stated fails: in the record
    [{"raw_data": None, "flags": [True, False]}] the null-valued field
    raw_data is not omitted from the schema (it is a JSONB column), and the
    list flags, whose items are neither strings nor numbers, is not mapped
    to the document type but to a float array. *)
Lemma C1_counterexample :
  let data : record :=
    <["raw_data" := PNone]> (<["flags" := PList [PBool true; PBool false]]> ∅) in
  let schema := PG._determine_table_schema data in
  (data !! "raw_data" = Some PNone ∧
   schema !! "raw_data" = Some "JSONB" ∧
   schema !! "raw_data" ≠ None) ∧
  (data !! "flags" = Some (PList [PBool true; PBool false]) ∧
   forallb is_string [PBool true; PBool false] = false ∧
   forallb is_number [PBool true; PBool false] = false ∧
   schema !! "flags" = Some "DOUBLE PRECISION[]" ∧
   schema !! "flags" ≠ Some "JSONB").
Proof. by vm_compute. Qed.

(** C9.  For every record field whose value is a boolean and whose name is
    not raw_data, schema inference assigns the column type BIGINT: the
    [isinstance(value, int)] case holds for booleans, and no rule for
    booleans precedes it. *)
Theorem C9_boolean_field_is_bigint (data : record) (k : string) (b : bool) :
  k ≠ "raw_data" →
  data !! k = Some (PBool b) →
  isinstance (PBool b) Cint = true ∧
  PG._determine_table_schema data !! k = Some "BIGINT".
Proof.
  intros Hne Hk. split; [reflexivity|].
  rewrite (determine_table_schema_field data k _ Hk).
  by rewrite (schema_entry_not_raw k _ Hne).
Qed.

Lemma C9_boolean_field_is_bigint_witness :
  isinstance (PBool true) Cint = true ∧
  PG._determine_table_schema {[ "active" := PBool true ]} !! "active"
    = Some "BIGINT".
Proof.
  apply (C9_boolean_field_is_bigint {[ "active" := PBool true ]} "active" true).
  - discriminate.
  - reflexivity.
Defined.

(** ** The collection loop *)

Lemma exec_app (c : Loop.collector) (l1 l2 : list Loop.action) (s : Loop.t) :
  Loop.exec c (l1 ++ l2) s = Loop.exec c l2 (Loop.exec c l1 s).
Proof. unfold Loop.exec. apply fold_left_app. Qed.

Lemma exec_cons (c : Loop.collector) (a : Loop.action) (l : list Loop.action)
    (s : Loop.t) :
  Loop.exec c (a :: l) s = Loop.exec c l (Loop.act c a s).
Proof. reflexivity. Qed.

Lemma act_interval (c : Loop.collector) (a : Loop.action) (s : Loop.t) :
  Loop.interval (Loop.act c a s) = Loop.interval s.
Proof.
  destruct a; simpl; [|reflexivity].
  unfold Loop.step.
  destruct (Loop.at_pc s); [destruct (Loop.running s)| | |]; try reflexivity.
  by destruct (Loop.collect_and_enqueue _ _ _).
Qed.

Lemma exec_interval (c : Loop.collector) (schedule : list Loop.action)
    (s : Loop.t) :
  Loop.interval (Loop.exec c schedule s) = Loop.interval s.
Proof.
  revert s. induction schedule as [|a l IH]; intros s; [reflexivity|].
  by rewrite exec_cons, IH, act_interval.
Qed.

Lemma act_invariant (c : Loop.collector) (a : Loop.action) (s : Loop.t) :
  loop_invariant s → loop_invariant (Loop.act c a s).
Proof.
  unfold loop_invariant. destruct a; simpl.
  - unfold Loop.step.
    destruct (Loop.at_pc s) eqn:Hpc.
    + destruct (Loop.running s); simpl; auto.
    + destruct (Loop.collect_and_enqueue _ _ _); simpl; auto.
    + simpl; auto.
    + by rewrite Hpc.
  - destruct (Loop.at_pc s); auto.
Qed.

Lemma exec_invariant (c : Loop.collector) (schedule : list Loop.action)
    (s : Loop.t) :
  loop_invariant s → loop_invariant (Loop.exec c schedule s).
Proof.
  revert s. induction schedule as [|a l IH]; intros s Hs; [done|].
  rewrite exec_cons. by apply IH, act_invariant.
Qed.

Lemma run_invariant (c : Loop.collector) (schedule : list Loop.action)
    (self : Loop.t) :
  loop_invariant (Loop.run c schedule self).
Proof. apply exec_invariant. reflexivity. Qed.

(** The step that ends the production call and enters the sleep. *)
Lemma step_in_collect (c : Loop.collector) (s : Loop.t) :
  Loop.at_pc s = Loop.InCollect →
  let p := c (Loop.calls s) in
  let now := (Loop.clock s + Loop.duration p)%Z in
  let st := Loop.sleep_time_at s now in
  let s' := Loop.step c s in
  Loop.at_pc s' = Loop.InSleep st ∧
  Loop.trace s' = (Loop.trace s ++ [Loop.EvSleep st])%list ∧
  Loop.clock s' = now ∧
  Loop.running s' = Loop.running s ∧
  Loop.calls s' = S (Loop.calls s) ∧
  Loop._last_collection_time s' = Loop._last_collection_time s ∧
  Loop.data_queue s' =
    fst (Loop.collect_and_enqueue p (Loop.data_queue s) (Loop.logged s)) ∧
  Loop.logged s' =
    (snd (Loop.collect_and_enqueue p (Loop.data_queue s) (Loop.logged s))
       ++ [(DEBUG, "sleeping.")])%list.
Proof.
  intros Hpc. unfold Loop.step. rewrite Hpc.
  by destruct (Loop.collect_and_enqueue _ _ _).
Qed.

(** The step that ends the sleep. *)
Lemma step_in_sleep (c : Loop.collector) (s : Loop.t) (st : Z) :
  Loop.at_pc s = Loop.InSleep st →
  let s' := Loop.step c s in
  Loop.at_pc s' = Loop.AtTop ∧
  Loop.clock s' = (Loop.clock s + st)%Z ∧
  Loop._last_collection_time s' = Loop.clock s' ∧
  Loop.running s' = Loop.running s ∧
  Loop.calls s' = Loop.calls s ∧
  Loop.trace s' = Loop.trace s ∧
  Loop.logged s' = Loop.logged s ∧
  Loop.data_queue s' = Loop.data_queue s.
Proof. intros Hpc. unfold Loop.step. by rewrite Hpc. Qed.

(** The [while] test. *)
Lemma step_at_top (c : Loop.collector) (s : Loop.t) :
  Loop.at_pc s = Loop.AtTop →
  let s' := Loop.step c s in
  Loop.at_pc s' = (if Loop.running s then Loop.InCollect else Loop.Exited) ∧
  Loop.trace s' =
    (Loop.trace s ++ [if Loop.running s then Loop.EvCollect (Loop.calls s)
                      else Loop.EvExit])%list ∧
  Loop.clock s' = Loop.clock s ∧
  Loop._last_collection_time s' = Loop._last_collection_time s ∧
  Loop.running s' = Loop.running s ∧
  Loop.calls s' = Loop.calls s ∧
  Loop.logged s' = Loop.logged s ∧
  Loop.data_queue s' = Loop.data_queue s.
Proof.
  intros Hpc. unfold Loop.step. rewrite Hpc.
  by destruct (Loop.running s).
Qed.

(** C3.  In every cycle of the collection loop, with configured interval
    [I] and a production call that took [d], the loop sleeps exactly
    [max(0, I - d)] before the next cycle starts: the sleep is never
    negative, it is zero whenever [d >= I] (the next cycle then starts with
    no additional delay), and the next [while] test happens
    [d + max(0, I - d)] after the cycle began. *)
Theorem C3_sleep_is_interval_minus_elapsed
    (c : Loop.collector) (schedule : list Loop.action) (self : Loop.t) :
  let s := Loop.run c schedule self in
  Loop.at_pc s = Loop.InCollect →
  let I := Loop.interval self in
  let d := Loop.duration (c (Loop.calls s)) in
  let sleep := Z.max 0 (I - d) in
  let s1 := Loop.step c s in
  let s2 := Loop.step c s1 in
  (Loop.at_pc s1 = Loop.InSleep sleep ∧
   Loop.trace s1 = (Loop.trace s ++ [Loop.EvSleep sleep])%list) ∧
  (0 ≤ sleep)%Z ∧
  ((I ≤ d)%Z → sleep = 0%Z) ∧
  ((d ≤ I)%Z → sleep = (I - d)%Z) ∧
  (Loop.at_pc s2 = Loop.AtTop ∧
   Loop.clock s2 = (Loop.clock s + d + sleep)%Z ∧
   Loop._last_collection_time s2 = Loop.clock s2).
Proof.
  intros s Hpc I d sleep s1 s2.
  pose proof (run_invariant c schedule self) as Hinv.
  fold s in Hinv. unfold loop_invariant in Hinv. rewrite Hpc in Hinv.
  assert (HI : Loop.interval s = I).
  { unfold s, Loop.run. by rewrite exec_interval. }
  destruct (step_in_collect c s Hpc)
    as (Hpc1 & Htr1 & Hclk1 & _ & _ & _ & _ & _).
  fold s1 in Hpc1, Htr1, Hclk1.
  assert (Hst : Loop.sleep_time_at s (Loop.clock s + d) = sleep).
  { unfold Loop.sleep_time_at. rewrite Hinv, HI. unfold sleep. f_equal. lia. }
  fold d in Hpc1, Htr1, Hclk1. rewrite Hst in Hpc1, Htr1.
  destruct (step_in_sleep c s1 sleep Hpc1)
    as (Hpc2 & Hclk2 & Hlast2 & _).
  fold s2 in Hpc2, Hclk2, Hlast2.
  repeat split; try done; try (unfold sleep; lia).
Qed.

Lemma C3_sleep_is_interval_minus_elapsed_witness :
  Loop.at_pc (Loop.step quiet_collector
                (Loop.run quiet_collector [Loop.Tick] fresh_collector))
  = Loop.InSleep 50.
Proof.
  exact (proj1 (proj1 (C3_sleep_is_interval_minus_elapsed
                         quiet_collector [Loop.Tick] fresh_collector eq_refl))).
Defined.

Lemma error_count_app (l1 l2 : log) :
  error_count (l1 ++ l2) = error_count l1 + error_count l2.
Proof. unfold error_count. by rewrite List.filter_app, length_app. Qed.

(** A cycle whose production call raises, from the [while] test to the
    next one. *)
Lemma failing_cycle (c : Loop.collector) (s : Loop.t) (e : exn) :
  Loop.at_pc s = Loop.AtTop →
  Loop.running s = true →
  Loop.outcome (c (Loop.calls s)) = Raise e →
  let s' := Loop.exec c [Loop.Tick; Loop.Tick; Loop.Tick] s in
  Loop.at_pc s' = Loop.AtTop ∧
  Loop.running s' = true ∧
  Loop.calls s' = S (Loop.calls s) ∧
  Loop.data_queue s' = Loop.data_queue s ∧
  error_count (Loop.logged s') = S (error_count (Loop.logged s)).
Proof.
  intros Hpc Hrun Hout. simpl.
  destruct (step_at_top c s Hpc) as (Hpc1 & _ & _ & _ & Hrun1 & Hcalls1 & Hlog1 & Hq1).
  rewrite Hrun in Hpc1.
  destruct (step_in_collect c _ Hpc1) as (Hpc2 & _ & _ & Hrun2 & Hcalls2 & _ & Hq2 & Hlog2).
  destruct (step_in_sleep c _ _ Hpc2) as (Hpc3 & _ & _ & Hrun3 & Hcalls3 & _ & Hlog3 & Hq3).
  rewrite Hcalls1 in Hq2, Hlog2.
  unfold Loop.collect_and_enqueue in Hq2, Hlog2. rewrite Hout in Hq2, Hlog2.
  simpl in Hq2, Hlog2.
  repeat split.
  - exact Hpc3.
  - by rewrite Hrun3, Hrun2, Hrun1.
  - by rewrite Hcalls3, Hcalls2, Hcalls1.
  - by rewrite Hq3, Hq2, Hq1.
  - rewrite Hlog3, Hlog2, Hlog1, !error_count_app.
    unfold error_count. simpl. lia.
Qed.

Lemma failing_cycles (c : Loop.collector) (n : nat) (s : Loop.t) :
  always_fails c →
  Loop.at_pc s = Loop.AtTop →
  Loop.running s = true →
  let s' := Loop.exec c (repeat Loop.Tick (3 * n)) s in
  Loop.at_pc s' = Loop.AtTop ∧
  Loop.running s' = true ∧
  Loop.calls s' = Loop.calls s + n ∧
  Loop.data_queue s' = Loop.data_queue s ∧
  error_count (Loop.logged s') = error_count (Loop.logged s) + n.
Proof.
  intros Hfail Hpc Hrun. induction n as [|n IH].
  - simpl. repeat split; auto.
  - replace (3 * S n) with (3 * n + 3) by lia.
    rewrite repeat_app, exec_app.
    destruct IH as (Hpc' & Hrun' & Hcalls' & Hq' & Herr').
    destruct (Hfail (Loop.calls (Loop.exec c (repeat Loop.Tick (3 * n)) s)))
      as [e He].
    destruct (failing_cycle c _ e Hpc' Hrun' He) as (H1 & H2 & H3 & H4 & H5).
    change (repeat Loop.Tick 3) with [Loop.Tick; Loop.Tick; Loop.Tick].
    repeat split; auto.
    + rewrite H3, Hcalls'. lia.
    + by rewrite H4.
    + rewrite H5, Herr'. lia.
Qed.

(** C4.  Every exception raised by the production step is caught and
    logged inside the loop body, and the loop goes on to the sleep and to
    the next [while] test: the failing cycle leaves the running flag and
    the queue as they were, adds one error record, and the next cycle
    starts unless [stop] was called.  A collector whose production step
    fails on every call is, after any number [n] of consecutive cycles,
    still running, back at the top of the loop, with [n] calls made and [n]
    errors logged; in particular for [n = 5]. *)
Theorem C4_failing_cycle_does_not_stop_the_loop :
  (∀ (c : Loop.collector) (s : Loop.t) (e : exn),
     Loop.at_pc s = Loop.InCollect →
     Loop.outcome (c (Loop.calls s)) = Raise e →
     let s1 := Loop.step c s in
     let s2 := Loop.step c s1 in
     let s3 := Loop.step c s2 in
     Loop.running s1 = Loop.running s ∧
     Loop.data_queue s1 = Loop.data_queue s ∧
     Loop.logged s1 =
       (Loop.logged s
          ++ [(ERROR, "encountered an error: " +:+ exn_str e);
              (DEBUG, "sleeping.")])%list ∧
     (∃ st, Loop.at_pc s1 = Loop.InSleep st) ∧
     Loop.at_pc s2 = Loop.AtTop ∧
     Loop.at_pc s3 =
       (if Loop.running s then Loop.InCollect else Loop.Exited) ∧
     Loop.calls s3 = S (Loop.calls s)) ∧
  (∀ (c : Loop.collector) (self : Loop.t) (n : nat),
     always_fails c →
     let s := Loop.run c (repeat Loop.Tick (3 * n)) self in
     Loop.running s = true ∧
     Loop.at_pc s = Loop.AtTop ∧
     Loop.calls s = Loop.calls self + n ∧
     error_count (Loop.logged s) = error_count (Loop.logged self) + n) ∧
  (∀ (c : Loop.collector) (self : Loop.t),
     always_fails c →
     let s := Loop.run c (repeat Loop.Tick 15) self in
     Loop.running s = true ∧
     Loop.at_pc s ≠ Loop.Exited ∧
     Loop.calls s = Loop.calls self + 5 ∧
     error_count (Loop.logged s) = error_count (Loop.logged self) + 5).
Proof.
  assert (Hcycles : ∀ (c : Loop.collector) (self : Loop.t) (n : nat),
     always_fails c →
     let s := Loop.run c (repeat Loop.Tick (3 * n)) self in
     Loop.running s = true ∧
     Loop.at_pc s = Loop.AtTop ∧
     Loop.calls s = Loop.calls self + n ∧
     error_count (Loop.logged s) = error_count (Loop.logged self) + n).
  { intros c self n Hfail. unfold Loop.run.
    destruct (failing_cycles c n (Loop.run_enter self) Hfail eq_refl eq_refl)
      as (Hpc & Hrun & Hcalls & _ & Herr).
    repeat split; auto.
    rewrite Herr. simpl. rewrite error_count_app.
    unfold error_count. simpl. lia. }
  split; [|split].
  - intros c s e Hpc Hout s1 s2 s3.
    destruct (step_in_collect c s Hpc)
      as (Hpc1 & _ & _ & Hrun1 & Hcalls1 & _ & Hq1 & Hlog1).
    fold s1 in Hpc1, Hrun1, Hcalls1, Hq1, Hlog1.
    destruct (step_in_sleep c s1 _ Hpc1)
      as (Hpc2 & _ & _ & Hrun2 & Hcalls2 & _).
    fold s2 in Hpc2, Hrun2, Hcalls2.
    destruct (step_at_top c s2 Hpc2) as (Hpc3 & _ & _ & _ & _ & Hcalls3 & _).
    fold s3 in Hpc3, Hcalls3.
    unfold Loop.collect_and_enqueue in Hq1, Hlog1.
    rewrite Hout in Hq1, Hlog1. simpl in Hq1, Hlog1.
    repeat split.
    + exact Hrun1.
    + exact Hq1.
    + rewrite Hlog1. by rewrite <- app_assoc.
    + eauto.
    + exact Hpc2.
    + by rewrite Hpc3, Hrun2, Hrun1.
    + by rewrite Hcalls3, Hcalls2, Hcalls1.
  - exact Hcycles.
  - intros c self Hfail s.
    destruct (Hcycles c self 5 Hfail) as (Hrun & Hpc & Hcalls & Herr).
    change (3 * 5) with 15 in *. fold s in Hrun, Hpc, Hcalls, Herr.
    repeat split; auto. by rewrite Hpc.
Qed.

Lemma failing_collector_always_fails : always_fails failing_collector.
Proof. intros n. by eexists. Qed.

Lemma C4_failing_cycle_does_not_stop_the_loop_witness :
  let s := Loop.run failing_collector (repeat Loop.Tick 15) fresh_collector in
  Loop.running s = true ∧
  Loop.at_pc s ≠ Loop.Exited ∧
  Loop.calls s = 5 ∧
  error_count (Loop.logged s) = 5.
Proof.
  exact (proj2 (proj2 C4_failing_cycle_does_not_stop_the_loop)
           failing_collector fresh_collector failing_collector_always_fails).
Defined.

Lemma count_events_app (f : Loop.event → bool) (l1 l2 : list Loop.event) :
  count_events f (l1 ++ l2) = count_events f l1 + count_events f l2.
Proof. unfold count_events. by rewrite List.filter_app, length_app. Qed.

(** One action once the flag is down. *)
Lemma act_stopped (c : Loop.collector) (a : Loop.action) (s : Loop.t) :
  Loop.running s = false →
  let s' := Loop.act c a s in
  Loop.running s' = false ∧
  ∃ evs, Loop.trace s' = Loop.trace s ++ evs ∧
         count_events Loop.is_collect evs = 0 ∧
         count_events Loop.is_sleep evs + sleeps_left (Loop.at_pc s')
           ≤ sleeps_left (Loop.at_pc s).
Proof.
  intros Hrun. destruct a; simpl.
  - destruct (Loop.at_pc s) eqn:Hpc.
    + destruct (step_at_top c s Hpc) as (Hpc' & Htr & _ & _ & Hrun' & _).
      rewrite Hrun in Hpc', Htr. split; [by rewrite Hrun'|].
      eexists. split; [exact Htr|]. rewrite Hpc'. by compute.
    + destruct (step_in_collect c s Hpc) as (Hpc' & Htr & _ & Hrun' & _).
      split; [by rewrite Hrun'|].
      eexists. split; [exact Htr|]. rewrite Hpc'. by compute.
    + destruct (step_in_sleep c s _ Hpc) as (Hpc' & _ & _ & Hrun' & _ & Htr & _).
      split; [by rewrite Hrun'|].
      exists []. rewrite app_nil_r, Hpc'. by compute.
    + unfold Loop.step. rewrite Hpc. split; [done|].
      exists []. rewrite app_nil_r, Hpc. by compute.
  - split; [done|]. exists []. rewrite app_nil_r. split; [done|].
    split; [done|]. simpl. lia.
Qed.

Lemma exec_stopped (c : Loop.collector) (schedule : list Loop.action)
    (s : Loop.t) :
  Loop.running s = false →
  let s' := Loop.exec c schedule s in
  Loop.running s' = false ∧
  ∃ evs, Loop.trace s' = Loop.trace s ++ evs ∧
         count_events Loop.is_collect evs = 0 ∧
         count_events Loop.is_sleep evs ≤ sleeps_left (Loop.at_pc s).
Proof.
  revert s. induction schedule as [|a l IH]; intros s Hrun.
  - simpl. split; [done|]. exists []. rewrite app_nil_r.
    split; [done|]. split; [done|]. unfold count_events. simpl. lia.
  - rewrite exec_cons.
    destruct (act_stopped c a s Hrun) as (Hrun1 & ev1 & Htr1 & Hc1 & Hs1).
    destruct (IH _ Hrun1) as (Hrun2 & ev2 & Htr2 & Hc2 & Hs2).
    split; [exact Hrun2|].
    exists (ev1 ++ ev2). rewrite Htr2, Htr1, <- app_assoc.
    split; [done|]. rewrite !count_events_app. lia.
Qed.

(** Once the flag is down the thread is at most three moves from the exit,
    and the clock advances by [time_to_exit] on the way. *)
Lemma exec_exits (c : Loop.collector) (schedule : list Loop.action)
    (s : Loop.t) :
  Loop.running s = false →
  moves_to_exit (Loop.at_pc s) ≤ ticks schedule →
  let s' := Loop.exec c schedule s in
  Loop.at_pc s' = Loop.Exited ∧
  Loop.clock s' = (Loop.clock s + time_to_exit c s)%Z.
Proof.
  revert s. induction schedule as [|a l IH]; intros s Hrun Hmoves.
  - unfold ticks in Hmoves. simpl in *.
    unfold time_to_exit.
    destruct (Loop.at_pc s); simpl in Hmoves; try lia.
    split; [done | lia].
  - rewrite exec_cons. destruct a.
    + assert (Hticks : ticks (Loop.Tick :: l) = S (ticks l)) by reflexivity.
      rewrite Hticks in Hmoves. simpl.
      destruct (Loop.at_pc s) eqn:Hpc; simpl in Hmoves.
      * destruct (step_at_top c s Hpc) as (Hpc' & _ & Hclk & _ & Hrun' & _).
        rewrite Hrun in Hpc'.
        destruct (IH (Loop.step c s)) as [H1 H2];
          [by rewrite Hrun' | rewrite Hpc'; simpl; lia |].
        split; [exact H1|]. rewrite H2, Hclk.
        unfold time_to_exit. rewrite Hpc', Hpc. lia.
      * destruct (step_in_collect c s Hpc) as (Hpc' & _ & Hclk & Hrun' & _).
        destruct (IH (Loop.step c s)) as [H1 H2];
          [by rewrite Hrun' | rewrite Hpc'; simpl; lia |].
        split; [exact H1|]. rewrite H2, Hclk.
        unfold time_to_exit. rewrite Hpc', Hpc. lia.
      * destruct (step_in_sleep c s _ Hpc) as (Hpc' & Hclk & _ & Hrun' & _).
        destruct (IH (Loop.step c s)) as [H1 H2];
          [by rewrite Hrun' | rewrite Hpc'; simpl; lia |].
        split; [exact H1|]. rewrite H2, Hclk.
        unfold time_to_exit. rewrite Hpc', Hpc. lia.
      * assert (Hsame : Loop.step c s = s) by (unfold Loop.step; by rewrite Hpc).
        rewrite Hsame.
        apply IH; [done | rewrite Hpc; simpl; lia].
    + assert (Hticks : ticks (Loop.Stop :: l) = ticks l) by reflexivity.
      rewrite Hticks in Hmoves. simpl.
      destruct (IH (Loop.stop s)) as [H1 H2]; [done | exact Hmoves |].
      split; [exact H1|]. rewrite H2. reflexivity.
Qed.

(** C5, as amended.  The collection loop tests the running flag at the top
    of each cycle only; the step from the production call into the sleep
    does not read it.  Once [stop] has flipped the flag, the loop begins no
    new production call, and it begins at most one more sleep, namely the
    sleep of the cycle during whose production call [stop] arrived (none if
    [stop] arrived at the test or during a sleep); it exits at its next
    test, within three moves of the thread, and the time until then is the
    rest of the production call plus its sleep, or the sleep under way. *)
Theorem C5_stop_is_seen_at_the_top_only
    (c : Loop.collector) (schedule : list Loop.action) (s : Loop.t) :
  Loop.running s = false →
  let s' := Loop.exec c schedule s in
  Loop.running s' = false ∧
  (∃ evs, Loop.trace s' = Loop.trace s ++ evs ∧
          count_events Loop.is_collect evs = 0 ∧
          count_events Loop.is_sleep evs ≤ sleeps_left (Loop.at_pc s)) ∧
  (Loop.at_pc s = Loop.AtTop → Loop.at_pc (Loop.step c s) = Loop.Exited) ∧
  (Loop.at_pc s = Loop.InCollect →
     ∃ st, st = Loop.sleep_time_at s
                  (Loop.clock s + Loop.duration (c (Loop.calls s))) ∧
           Loop.at_pc (Loop.step c s) = Loop.InSleep st ∧
           Loop.trace (Loop.step c s) = Loop.trace s ++ [Loop.EvSleep st]) ∧
  (moves_to_exit (Loop.at_pc s) ≤ ticks schedule →
     Loop.at_pc s' = Loop.Exited ∧
     Loop.clock s' = (Loop.clock s + time_to_exit c s)%Z).
Proof.
  intros Hrun s'.
  destruct (exec_stopped c schedule s Hrun) as [Hrun' Hevs].
  split; [exact Hrun'|]. split; [exact Hevs|]. split; [|split].
  - intros Hpc. destruct (step_at_top c s Hpc) as (Hpc' & _).
    by rewrite Hpc', Hrun.
  - intros Hpc. destruct (step_in_collect c s Hpc) as (Hpc' & Htr & _).
    eexists. split; [reflexivity|]. by split.
  - intros Hmoves. by apply exec_exits.
Qed.

Lemma C5_stop_is_seen_at_the_top_only_witness :
  Loop.running (Loop.exec quiet_collector [Loop.Tick; Loop.Tick; Loop.Tick]
                  stopped_during_call) = false.
Proof.
  exact (proj1 (C5_stop_is_seen_at_the_top_only quiet_collector
                  [Loop.Tick; Loop.Tick; Loop.Tick] stopped_during_call
                  eq_refl)).
Defined.

(** C5 as stated fails: [stop] arrives during the production call of the
    first cycle (interval 60, call duration 10); the flag is down, and the
    next move of the loop begins a sleep of 50 all the same. *)
Lemma C5_counterexample :
  let s := stopped_during_call in
  let s' := Loop.step quiet_collector s in
  Loop.running s = false ∧
  Loop.at_pc s = Loop.InCollect ∧
  Loop.at_pc s' = Loop.InSleep 50 ∧
  Loop.trace s' = Loop.trace s ++ [Loop.EvSleep 50] ∧
  Loop.running s' = false.
Proof. by vm_compute. Qed.

(** ** The drain worker *)

Lemma with_timestamp_present (now : string) (data : record) :
  is_Some (data !! "timestamp") → Agent.with_timestamp now data = data.
Proof.
  intros Hts. unfold Agent.with_timestamp.
  by rewrite bool_decide_eq_true_2.
Qed.

Lemma with_timestamp_absent (now : string) (data : record) :
  data !! "timestamp" = None →
  Agent.with_timestamp now data = <["timestamp" := PStr now]> data.
Proof.
  intros Hts. unfold Agent.with_timestamp.
  rewrite bool_decide_eq_false_2; [done|].
  rewrite Hts. by intros [? ?].
Qed.

(** What [_process_data] does to the sink: one call of [store_data], on the
    record it returns. *)
Lemma process_data_calls_store {Sink} (store_data : record → M Sink unit)
    (now : string) (data : record) (self : Agent.t Sink) :
  let passed := fst (Agent._process_data store_data now data self) in
  let self' := snd (Agent._process_data store_data now data self) in
  passed = Agent.with_timestamp now data ∧
  Agent.stored self' = Agent.stored self ++ [passed] ∧
  Agent.data_storage self' = snd (store_data passed (Agent.data_storage self)) ∧
  Agent.lock_held self' = false ∧
  Agent.data_queue self' = Agent.data_queue self.
Proof.
  unfold Agent._process_data. simpl.
  unfold try_except, Agent.with_lock, try_finally, bind, Agent.on_storage,
    Agent.note_call, Agent.set_lock, Agent.emit, modify. simpl.
  destruct (store_data (Agent.with_timestamp now data) (Agent.data_storage self))
    as [[[]|e] sink']; simpl; auto.
Qed.

(** C6.  For every record dequeued by the drain worker, the sink's
    [store_data] is called once, on the record [_process_data] leaves
    behind: if the record already has a "timestamp" field, that record is
    identical to the dequeued one; if "timestamp" is absent, exactly one
    field is added, "timestamp" set to the capture time, and every other
    field keeps its value. *)
Theorem C6_only_the_timestamp_is_added {Sink} (store_data : record → M Sink unit)
    (now : string) (data : record) (self : Agent.t Sink) :
  let passed := fst (Agent._process_data store_data now data self) in
  let self' := snd (Agent._process_data store_data now data self) in
  (Agent.stored self' = Agent.stored self ++ [passed] ∧
   Agent.data_storage self'
     = snd (store_data passed (Agent.data_storage self))) ∧
  (is_Some (data !! "timestamp") → passed = data) ∧
  (data !! "timestamp" = None →
     passed !! "timestamp" = Some (PStr now) ∧
     (∀ k, k ≠ "timestamp" → passed !! k = data !! k) ∧
     dom passed = {["timestamp"]} ∪ dom data ∧
     size passed = S (size data)) ∧
  (∀ rest, Agent.data_queue self = data :: rest →
     Agent.drain_step store_data now self
       = Some (snd (Agent._process_data store_data now data
                      (Agent.set_queue rest self)))).
Proof.
  intros passed self'.
  destruct (process_data_calls_store store_data now data self)
    as (Hpassed & Hstored & Hsink & _).
  fold passed in Hpassed, Hstored, Hsink. fold self' in Hstored, Hsink.
  split; [by split|]. split; [|split].
  - intros Hts. rewrite Hpassed. by apply with_timestamp_present.
  - intros Hts. rewrite Hpassed, (with_timestamp_absent now data Hts).
    split; [apply lookup_insert_eq|]. split; [|split].
    + intros k Hk. by rewrite lookup_insert_ne.
    + apply dom_insert_L.
    + by apply map_size_insert_None.
  - intros rest Hq. unfold Agent.drain_step. rewrite Hq.
    by rewrite orb_true_r.
Qed.

Lemma C6_only_the_timestamp_is_added_witness :
  let data : record := {[ "source" := PStr "bls" ]} in
  let passed :=
    fst (Agent._process_data list_sink "2024-01-01T00:00:00+00:00" data
           idle_agent) in
  passed !! "timestamp" = Some (PStr "2024-01-01T00:00:00+00:00") ∧
  (∀ k, k ≠ "timestamp" → passed !! k = data !! k) ∧
  dom passed = {["timestamp"]} ∪ dom data ∧
  size passed = S (size data).
Proof.
  exact (proj1 (proj2 (proj2 (C6_only_the_timestamp_is_added list_sink
           "2024-01-01T00:00:00+00:00" {[ "source" := PStr "bls" ]}
           idle_agent))) eq_refl).
Defined.

(** ** The CAPTCHA solver *)




(** ** The relational sink *)

Ltac pg_unfold :=
  cbv beta iota zeta delta
    [PG.store_data PG._create_table PG._get_connection PG._put_connection
     PG.getconn PG.putconn PG.conn_cursor PG.cursor_close PG.execute_create
     PG.execute_insert PG.commit PG.rollback PG.driver_fault PG.with_local
     PG.on_db PG.get_local PG.set_local bind try_except try_finally lift ret
     raise modify store_data_cases store_failed close_opt table_of].

Ltac pg_case b := destruct b eqn:?; cbv beta iota zeta; try reflexivity.

(** Case analysis along the paths of [store_data_cases]. *)
Ltac pg_paths :=
  unfold store_data_cases, store_failed; cbv zeta;
  repeat match goal with
  | |- context [if ?e ?c then _ else _] =>
      match type of c with PG.driver_call => destruct (e c) eqn:? end
  | |- context [match PG.data_for_insert ?d with _ => _ end] =>
      destruct (PG.data_for_insert d) eqn:?
  | |- context [if bool_decide ?P then _ else _] =>
      destruct (bool_decide P) eqn:?
  | |- context [match ?m !! ?k with _ => _ end] =>
      destruct (m !! k) eqn:?
  end.

Lemma getconn_available (db : PG.database) :
  pool_available db →
  (0 <? PG.pool_idle db) || (PG.pool_busy db <? PG.pool_maxconn db) = true.
Proof.
  intros [Hidle|Hbusy]; apply orb_true_iff; [left|right];
    by apply Nat.ltb_lt.
Qed.


Section RelationalSink.
Context `{Interp}.

Lemma store_data_unfold (env : PG.faults) (data : record) (db : PG.database) :
  pool_available db →
  PG.store_data env data db = store_data_cases env data db.
Proof.
  intros Hav. pg_unfold. rewrite (getconn_available db Hav).
  cbv beta iota zeta.
  pg_case (env PG.CreateCursor).
  pg_case (env PG.CreateExecute).
  pg_case (env PG.CreateCommit).
  pg_case (env PG.InsertCursor).
  pg_case (PG.data_for_insert data).
  pg_case (env PG.InsertExecute).
  match goal with
  | |- context [bool_decide (?a = ∅)] => pg_case (bool_decide (a = ∅))
  end.
  match goal with
  | |- context [PG.db_working ?x !! ?n] => pg_case (PG.db_working x !! n)
  end.
  match goal with
  | |- context [bool_decide (?a ⊆ ?b)] => pg_case (bool_decide (a ⊆ b))
  end.
  pg_case (env PG.InsertCommit).
Qed.





End RelationalSink.






Lemma create_if_not_exists_lookup (name : string)
    (schema : gmap string string) (tables : gmap string PG.table) :
  PG.create_if_not_exists name schema tables !! name
  = Some (default {| PG.tbl_columns := schema; PG.tbl_rows := [] |}
            (tables !! name)).
Proof.
  unfold PG.create_if_not_exists.
  destruct (tables !! name) eqn:Hname; [done|]. apply lookup_insert_eq.
Qed.



Section RelationalSinkTables.
Context `{Interp}.

(** The committed tables after one store that started with no open
    transaction: unchanged when a call of [_create_table] failed; with the
    table of the record created if it did not exist when the store failed
    later; with, in addition, the row inserted when the store returned. *)
Lemma store_data_committed (env : PG.faults) (data : record)
    (db : PG.database) :
  pool_available db →
  quiescent db →
  let r := fst (PG.store_data env data db) in
  let db' := snd (PG.store_data env data db) in
  let name := table_of data in
  let before := PG.db_committed db in
  let created :=
    PG.create_if_not_exists name (PG._determine_table_schema data) before in
  (is_Ok r = false ∧
   ((¬ creates_succeed env ∧ PG.db_committed db' = before) ∨
    (creates_succeed env ∧ PG.db_committed db' = created))) ∨
  (r = Ok tt ∧ creates_succeed env ∧
   ∃ row tbl,
     PG.data_for_insert data = Ok row ∧
     created !! name = Some tbl ∧
     row ≠ ∅ ∧
     dom row ⊆ dom (PG.tbl_columns tbl) ∧
     PG.db_committed db' = <[name := PG.add_row row tbl]> created).
Proof.
  intros Hav Hq. unfold quiescent in Hq.
  rewrite (store_data_unfold env data db Hav).
  unfold creates_succeed.
  pg_paths; simpl in *; rewrite ?Hq in *;
    try (left; split; [reflexivity|];
         first [ left; split; [intros (?&?&?); congruence | reflexivity]
               | right; split; [by repeat split | reflexivity] ]).
  right. split; [reflexivity|]. split; [by repeat split|].
  eexists _, _. split; [reflexivity|]. split; [eassumption|].
  split; [by eapply bool_decide_eq_false_1|].
  split; [by eapply bool_decide_eq_true_1 | reflexivity].
Qed.





End RelationalSinkTables.

Example store_data_example :
  let '(r, db) := PG.store_data (H := example_interp) PG.no_faults
                    first_record fresh_database in
  r = Ok tt ∧
  PG.tbl_rows <$> PG.db_committed db !! "x_y"
  = Some [ <["source" := PG.Bound (PStr "x")]> (
           <["data_type" := PG.Bound (PStr "y")]> (
           {[ "count" := PG.Bound (PInt 3) ]})) ].
Proof. by vm_compute. Qed.

Example store_data_commit_fails_trace :
  PG.db_trace (snd (PG.store_data (H := example_interp) commit_fails
                      first_record fresh_database))
  = [PG.EvGetconn; PG.EvCursor 0;
     PG.EvCreateTable "x_y" (PG._determine_table_schema first_record);
     PG.EvCommit; PG.EvCursorClose 0; PG.EvCursor 1;
     PG.EvInsert "x_y"
       (<["source" := PG.Bound (PStr "x")]> (
        <["data_type" := PG.Bound (PStr "y")]> (
        {[ "count" := PG.Bound (PInt 3) ]})));
     PG.EvRollback; PG.EvCursorClose 1; PG.EvPutconn].
Proof. by vm_compute. Qed.







(** ** Defaults for a missing source or data type *)

Example path_join_examples :
  FS.path_join "data/" "x" = "data/x" ∧
  FS.path_join "data" "/abs" = "/abs" ∧
  FS.path_join "" "x" = "x".
Proof. by vm_compute. Qed.

Example json_normalize_example :
  FS.json_normalize (<["meta" := PDict {[ "k" := PInt 1 ]}]> {[ "n" := PInt 2 ]})
  = <["meta.k" := PInt 1]> {[ "n" := PInt 2 ]}.
Proof. by vm_compute. Qed.

Example store_to_file_example :
  let '(r, fs) := FS.store_data (H := example_interp) file_sink
                    anonymous_record empty_filesystem in
  r = Ok tt ∧
  FS.fs_files fs !! "data/unknown/general/20240101_000000_BTC-USD.json"
    = Some [FS.JsonDoc anonymous_record].
Proof. by vm_compute. Qed.

Section Defaults.
Context `{Interp}.








End Defaults.


(* ===================================================================== *)
(** * Further properties of the code *)
(* ===================================================================== *)

(** ** More on the relational sink *)

Lemma bind_value_bindable (v : pyval) :
  is_None v = false → bindable v = true →
  PG.bind_value v = from_option Ok (Raise not_serializable) (binding v).
Proof.
  intros Hn Hb. unfold bindable, binding, PG.bind_value in *.
  rewrite Hn in *.
  destruct (isinstance_any v [Cdict; Clist]) eqn:Hi; [|reflexivity].
  cbn [negb orb] in Hb. by rewrite Hb.
Qed.

Lemma bind_value_unbindable (v : pyval) :
  bindable v = false →
  is_None v = false ∧ PG.bind_value v = Raise not_serializable.
Proof.
  unfold bindable, PG.bind_value. intros Hb.
  apply orb_false_iff in Hb as [Hb Hjs]. apply orb_false_iff in Hb as [Hn Hi].
  apply negb_false_iff in Hi. by rewrite Hi, Hjs.
Qed.

Lemma binding_not_none (v : pyval) : is_None v = false → is_Some (binding v).
Proof.
  intros Hn. unfold binding. rewrite Hn.
  destruct (isinstance_any v [Cdict; Clist]); eauto.
Qed.

Lemma binding_none (v : pyval) : is_None v = true → binding v = None.
Proof. intros Hn. unfold binding. by rewrite Hn. Qed.

Lemma lookup_bind_insert (m : record) (row : gmap string PG.sqlval)
    (i : string) (x : pyval) :
  m !! i = None →
  (∀ k, row !! k = m !! k ≫= binding) →
  ∀ k, match binding x with
       | Some b => <[i := b]> row
       | None => row
       end !! k = <[i := x]> m !! k ≫= binding.
Proof.
  intros Hfresh Hrow k. destruct (decide (i = k)) as [<-|Hne].
  - rewrite lookup_insert_eq.
    change (Some x ≫= binding) with (binding x).
    destruct (binding x) eqn:Hb.
    + by rewrite lookup_insert_eq.
    + by rewrite Hrow, Hfresh.
  - rewrite (lookup_insert_ne m) by done.
    destruct (binding x); [by rewrite lookup_insert_ne|done].
Qed.

(** The dict comprehension of [store_data], field by field. *)
Lemma data_for_insert_spec (data : record) :
  match PG.data_for_insert data with
  | Ok row =>
      (∀ k, row !! k = data !! k ≫= binding) ∧
      (∀ k v, data !! k = Some v → bindable v = true)
  | Raise e =>
      e = not_serializable ∧
      ∃ k v, data !! k = Some v ∧ bindable v = false
  end.
Proof.
  unfold PG.data_for_insert.
  apply (map_fold_weak_ind
    (λ (r : result (gmap string PG.sqlval)) (m : record),
       match r with
       | Ok row =>
           (∀ k, row !! k = m !! k ≫= binding) ∧
           (∀ k v, m !! k = Some v → bindable v = true)
       | Raise e =>
           e = not_serializable ∧
           ∃ k v, m !! k = Some v ∧ bindable v = false
       end)).
  - split; [intros k; by rewrite !lookup_empty
           | intros k v; by rewrite lookup_empty].
  - intros i x m r Hfresh IH.
    assert (Hkeep : ∀ k v, m !! k = Some v → <[i := x]> m !! k = Some v).
    { intros k v Hk. rewrite lookup_insert_ne; [done|]. intros ->. congruence. }
    destruct r as [row|e].
    + destruct IH as [Hrow Hall].
      pose proof (lookup_bind_insert m row i x Hfresh Hrow) as Hstep.
      assert (Hall' : bindable x = true →
                ∀ k v, <[i := x]> m !! k = Some v → bindable v = true).
      { intros Hb k v. destruct (decide (i = k)) as [<-|Hne].
        - rewrite lookup_insert_eq. by intros [= <-].
        - rewrite lookup_insert_ne by done. apply Hall. }
      destruct (is_None x) eqn:Hnone.
      * rewrite (binding_none x Hnone) in Hstep. split; [exact Hstep|].
        apply Hall'. unfold bindable. by rewrite Hnone.
      * destruct (bindable x) eqn:Hb.
        -- rewrite (bind_value_bindable x Hnone Hb).
           destruct (binding_not_none x Hnone) as [b Hbind].
           rewrite Hbind in Hstep |- *. simpl.
           split; [exact Hstep | by apply Hall'].
        -- destruct (bind_value_unbindable x Hb) as [_ ->].
           split; [done|]. exists i, x. by rewrite lookup_insert_eq.
    + destruct IH as [-> (k & v & Hk & Hv)].
      destruct (is_None x); [|destruct (PG.bind_value x)];
        (split; [done|]; exists k, v; split; [by apply Hkeep | done]).
Qed.

Lemma data_for_insert_lookup (data : record) (row : gmap string PG.sqlval)
    (k : string) :
  PG.data_for_insert data = Ok row → row !! k = data !! k ≫= binding.
Proof.
  intros Hrow. pose proof (data_for_insert_spec data) as Hspec.
  rewrite Hrow in Hspec. apply Hspec.
Qed.


Lemma schema_entry_not_none (k : string) (v : pyval) :
  is_None v = false → is_Some (PG.schema_entry k v).
Proof.
  intros Hn. unfold PG.schema_entry.
  destruct (String.eqb k "raw_data"); [eauto|].
  destruct v; try discriminate; simpl; eauto.
  repeat case_match; eauto.
Qed.

Lemma insert_columns_in_schema (data : record)
    (row : gmap string PG.sqlval) :
  PG.data_for_insert data = Ok row →
  dom row ⊆ dom (PG._determine_table_schema data) ∧
  (∀ k, k ∈ dom (PG._determine_table_schema data) → k ∉ dom row →
        k = "raw_data" ∧ data !! k = Some PNone).
Proof.
  intros Hrow. split.
  - intros k [b Hb]%elem_of_dom.
    rewrite (data_for_insert_lookup data row k Hrow) in Hb.
    apply elem_of_dom. rewrite determine_table_schema_lookup.
    destruct (data !! k) as [v|] eqn:Hk; [|done].
    change (Some v ≫= binding) with (binding v) in Hb.
    change (Some v ≫= PG.schema_entry k) with (PG.schema_entry k v).
    apply schema_entry_not_none.
    destruct (is_None v) eqn:Hn; [|done].
    by rewrite (binding_none v Hn) in Hb.
  - intros k [ty Hty]%elem_of_dom Hnot.
    rewrite determine_table_schema_lookup in Hty.
    apply not_elem_of_dom in Hnot.
    rewrite (data_for_insert_lookup data row k Hrow) in Hnot.
    destruct (data !! k) as [v|] eqn:Hk; [|done].
    change (Some v ≫= binding) with (binding v) in Hnot.
    change (Some v ≫= PG.schema_entry k) with (PG.schema_entry k v) in Hty.
    destruct (is_None v) eqn:Hn.
    + destruct v; try discriminate. split; [|done].
      unfold PG.schema_entry in Hty.
      destruct (String.eqb_spec k "raw_data"); [done|discriminate].
    + destruct (binding_not_none v Hn) as [b Hb]. congruence.
Qed.

(** X2.  Every column of the INSERT is a column of the schema inferred from
    the same record; the only column the schema can have beyond them is
    raw_data, when that field is null. *)
Theorem X2_insert_columns_are_schema_columns (data : record)
    (row : gmap string PG.sqlval) :
  PG.data_for_insert data = Ok row →
  dom row ⊆ dom (PG._determine_table_schema data) ∧
  (∀ k, k ∈ dom (PG._determine_table_schema data) → k ∉ dom row →
        k = "raw_data" ∧ data !! k = Some PNone).
Proof. apply insert_columns_in_schema. Qed.

Lemma X2_insert_columns_are_schema_columns_witness :
  ∃ row, PG.data_for_insert first_record = Ok row ∧
         dom row ⊆ dom (PG._determine_table_schema first_record).
Proof.
  destruct (PG.data_for_insert first_record) as [row|e] eqn:Hrow.
  - exists row. split; [reflexivity|].
    exact (proj1 (X2_insert_columns_are_schema_columns first_record row Hrow)).
  - exfalso. vm_compute in Hrow. discriminate Hrow.
Defined.

(** When [store_data] returns: no driver call fails, the record binds to a
    row that is not empty, and every column of the row is a column of the
    table, as it exists or as [_create_table] has just made it. *)
Lemma store_data_ok_iff `{Interp} (env : PG.faults) (data : record) (db : PG.database) :
  pool_available db →
  quiescent db →
  let created :=
    PG.create_if_not_exists (table_of data) (PG._determine_table_schema data)
      (PG.db_committed db) in
  fst (PG.store_data env data db) = Ok tt ↔
  (∀ call, env call = false) ∧
  ∃ row tbl,
    PG.data_for_insert data = Ok row ∧ row ≠ ∅ ∧
    created !! table_of data = Some tbl ∧
    dom row ⊆ dom (PG.tbl_columns tbl).
Proof.
  intros Hav Hq created. unfold quiescent in Hq. subst created.
  rewrite (store_data_unfold env data db Hav).
  pg_paths; simpl in *; rewrite ?Hq in *;
    (split;
     [ try discriminate
     | intros (Henv & row & tbl & Hrow & Hne & Htbl & Hsub);
       try (exfalso;
            repeat match goal with
            | Hc : env ?c = true |- _ => rewrite Henv in Hc; discriminate
            | Hb : bool_decide _ = true |- _ => apply bool_decide_eq_true_1 in Hb
            | Hb : bool_decide _ = false |- _ => apply bool_decide_eq_false_1 in Hb
            end; simplify_eq; done) ]).
  - intros _. split; [by intros []|].
    eexists _, _. split; [reflexivity|].
    split; [by eapply bool_decide_eq_false_1|].
    split; [eassumption | by eapply bool_decide_eq_true_1].
  - reflexivity.
Qed.






Lemma data_for_insert_all_null (data : record) :
  (∀ k v, data !! k = Some v → v = PNone) →
  PG.data_for_insert data = Ok ∅.
Proof.
  intros Hnull. pose proof (data_for_insert_spec data) as Hspec.
  destruct (PG.data_for_insert data) as [row|e].
  - destruct Hspec as [Hlook _]. f_equal. apply map_eq. intros k.
    rewrite Hlook, lookup_empty.
    destruct (data !! k) as [v|] eqn:Hk; [|done].
    by rewrite (Hnull k v Hk).
  - destruct Hspec as (_ & k & v & Hk & Hb).
    by rewrite (Hnull k v Hk) in Hb.
Qed.

(** X5.  [_create_table] commits before the INSERT is attempted: when the
    calls of [_create_table] go through and the store then fails, a table
    that did not exist is left behind, committed, with the inferred schema
    and no row.  This is what happens for every record all of whose fields
    are null (the empty record included). *)
Theorem X5_failed_first_store_leaves_empty_table `{Interp} (env : PG.faults)
    (data : record) (db : PG.database) :
  pool_available db →
  quiescent db →
  creates_succeed env →
  PG.db_committed db !! table_of data = None →
  (is_Ok (fst (PG.store_data env data db)) = false →
   PG.db_committed (snd (PG.store_data env data db))
   = <[table_of data := {| PG.tbl_columns := PG._determine_table_schema data;
                           PG.tbl_rows := [] |}]> (PG.db_committed db)) ∧
  ((∀ k v, data !! k = Some v → v = PNone) →
   is_Ok (fst (PG.store_data env data db)) = false).
Proof.
  intros Hav Hq Hcreate Hnew. split.
  - intros Hfail.
    destruct (store_data_committed env data db Hav Hq)
      as [[_ [[Hno _]|[_ ->]]]|(Hok & _)].
    + contradiction.
    + unfold PG.create_if_not_exists. by rewrite Hnew.
    + rewrite Hok in Hfail. discriminate.
  - intros Hnull.
    destruct (fst (PG.store_data env data db)) as [[]|e] eqn:Hres; [|done].
    apply (store_data_ok_iff env data db Hav Hq) in Hres
      as (_ & row & _ & Hrow & Hne & _).
    rewrite (data_for_insert_all_null data Hnull) in Hrow. congruence.
Qed.

Lemma X5_failed_first_store_leaves_empty_table_witness :
  PG.db_committed
    (snd (PG.store_data (H := example_interp) PG.no_faults
            {[ "note" := PNone ]} fresh_database))
  = <[table_of (H := example_interp) {[ "note" := PNone ]} :=
        {| PG.tbl_columns := PG._determine_table_schema {[ "note" := PNone ]};
           PG.tbl_rows := [] |}]> (PG.db_committed fresh_database).
Proof.
  refine (proj1 (X5_failed_first_store_leaves_empty_table
                   (H := example_interp) PG.no_faults {[ "note" := PNone ]}
                   fresh_database (or_introl (Nat.lt_0_1 : 0 < 1)) eq_refl
                   _ eq_refl) _).
  - by repeat split.
  - by vm_compute.
Defined.





Lemma create_if_not_exists_other (name other : string)
    (schema : gmap string string) (tables : gmap string PG.table) :
  other ≠ name →
  PG.create_if_not_exists name schema tables !! other = tables !! other.
Proof.
  intros Hne. unfold PG.create_if_not_exists.
  destruct (tables !! name); [done|]. by rewrite lookup_insert_ne.
Qed.

(** X7.  A store that returns has added exactly one row, at the end of the
    table of the record: that table has the columns it had (or, if new, the
    inferred schema) and its earlier rows followed by the row of the
    record; every other table is as it was. *)
Theorem X7_store_appends_one_row `{Interp} (env : PG.faults) (data : record)
    (db : PG.database) :
  pool_available db →
  quiescent db →
  fst (PG.store_data env data db) = Ok tt →
  let db' := snd (PG.store_data env data db) in
  let old := default {| PG.tbl_columns := PG._determine_table_schema data;
                        PG.tbl_rows := [] |}
               (PG.db_committed db !! table_of data) in
  (∀ other, other ≠ table_of data →
            PG.db_committed db' !! other = PG.db_committed db !! other) ∧
  ∃ row, PG.data_for_insert data = Ok row ∧
         PG.db_committed db' !! table_of data
         = Some {| PG.tbl_columns := PG.tbl_columns old;
                   PG.tbl_rows := PG.tbl_rows old ++ [row] |}.
Proof.
  intros Hav Hq Hok db' old.
  destruct (store_data_committed env data db Hav Hq)
    as [[Hfail _]|(_ & _ & row & tbl & Hrow & Htbl & _ & _ & Hdb)].
  { rewrite Hok in Hfail. discriminate. }
  fold db' in Hdb. rewrite create_if_not_exists_lookup in Htbl.
  injection Htbl as <-. fold old in Hdb. split.
  - intros other Hne. rewrite Hdb, lookup_insert_ne by done.
    by apply create_if_not_exists_other.
  - exists row. split; [exact Hrow|]. by rewrite Hdb, lookup_insert_eq.
Qed.

Lemma X7_store_appends_one_row_witness :
  ∃ row,
    PG.data_for_insert first_record = Ok row ∧
    PG.db_committed
      (snd (PG.store_data (H := example_interp) PG.no_faults first_record
              fresh_database)) !! "x_y"
    = Some {| PG.tbl_columns := PG._determine_table_schema first_record;
              PG.tbl_rows := [row] |}.
Proof.
  refine (proj2 (X7_store_appends_one_row (H := example_interp) PG.no_faults
                   first_record fresh_database
                   (or_introl (Nat.lt_0_1 : 0 < 1)) eq_refl _)).
  by vm_compute.
Defined.

Lemma string_append_assoc (a b c : string) :
  (a +:+ b) +:+ c = a +:+ (b +:+ c).
Proof.
  induction a as [|ch a IH]; [reflexivity|].
  change (String ch ((a +:+ b) +:+ c) = String ch (a +:+ (b +:+ c))).
  by rewrite IH.
Qed.

(** X8.  The table name does not tell the source from the data type: the
    records of source [s_d] and data type [e] and those of source [s] and
    data type [d_e] go to the same table. *)
Theorem X8_table_names_collide `{Interp} (s d e : string) :
  PG.table_name_of (PStr (s +:+ "_" +:+ d)) (PStr e)
  = PG.table_name_of (PStr s) (PStr (d +:+ "_" +:+ e)).
Proof.
  unfold PG.table_name_of, py_str. by rewrite !string_append_assoc.
Qed.

(** ** More on the file and CSV sinks *)

Lemma try_except_wraps {St} (body : M St unit) (prefix : string) (s : St) :
  let r := fst (try_except body
                  (λ e, raise (StorageError (prefix +:+ exn_str e))) s) in
  r = Ok tt ∨ ∃ msg, r = Raise (StorageError msg).
Proof.
  unfold try_except, raise. destruct (body s) as [[[]|e] s']; simpl; eauto.
Qed.

(** X9.  Whatever goes wrong in the file or CSV sink reaches the caller as
    a [StorageError]: for every configuration, record and file system,
    [store_data] returns or raises [StorageError], and for a storage type
    other than file and csv it raises without touching the file system. *)
Theorem X9_file_sink_raises_only_StorageError `{Interp} (self : FS.t)
    (data : record) (fs : FS.filesystem) :
  (fst (FS.store_data self data fs) = Ok tt ∨
   ∃ msg, fst (FS.store_data self data fs) = Raise (StorageError msg)) ∧
  (FS.storage_type self ≠ "file" → FS.storage_type self ≠ "csv" →
   FS.store_data self data fs
   = (Raise (StorageError ("Unsupported storage type: "
                             +:+ FS.storage_type self)), fs)).
Proof.
  unfold FS.store_data. split.
  - destruct (String.eqb (FS.storage_type self) "file").
    { unfold FS._store_to_file. apply try_except_wraps. }
    destruct (String.eqb (FS.storage_type self) "csv").
    { unfold FS._store_to_csv. apply try_except_wraps. }
    right. by eexists.
  - intros Hfile Hcsv.
    destruct (String.eqb_spec (FS.storage_type self) "file"); [done|].
    by destruct (String.eqb_spec (FS.storage_type self) "csv").
Qed.

(** What [_store_to_file] does for a record with string source, data type
    and asset. *)
Lemma store_to_file_strings (self : FS.t) (data : record)
    (fs : FS.filesystem) (s d a : string) :
  goes_to s d data →
  dict_get data "asset" (PStr "general") = PStr a →
  let directory := FS.path_join (FS.path_join (FS.data_dir self) s) d in
  let filepath := FS.path_join directory (file_name (FS.fs_clock fs) a) in
  FS._store_to_file self data fs =
    if json_serializable (PDict data) then
      (Ok tt, {| FS.fs_dirs := {[directory]} ∪ FS.fs_dirs fs;
                 FS.fs_files := <[filepath := [FS.JsonDoc data]]> (FS.fs_files fs);
                 FS.fs_clock := FS.fs_clock fs |})
    else
      (Raise (StorageError
                ("Error storing data to file: Object is not JSON serializable")),
       {| FS.fs_dirs := {[directory]} ∪ FS.fs_dirs fs;
          FS.fs_files := <[filepath := [FS.JsonPartial]]> (FS.fs_files fs);
          FS.fs_clock := FS.fs_clock fs |}).
Proof.
  intros [Hs Hd] Ha directory filepath.
  unfold FS._store_to_file. rewrite Hs, Hd, Ha.
  unfold try_except, bind, lift, FS.makedirs, modify, ret, raise.
  cbn [FS.os_path_join]. fold directory.
  change (FS.fs_clock fs +:+ "_"
            +:+ FS.str_replace ":" "-" (FS.str_replace "/" "-" a)
            +:+ ".json") with (file_name (FS.fs_clock fs) a).
  fold filepath. unfold FS.json_dump.
  destruct (json_serializable (PDict data)); reflexivity.
Qed.



(** X10.  The file sink writes one file at most: the directories and the
    clock aside, a store changes the file system at the path of the
    record's own file only, and only when source, data type and asset are
    strings; directories are only added. *)
Theorem X10_file_store_touches_one_path (self : FS.t) (data : record)
    (fs : FS.filesystem) (p : string) :
  let fs' := snd (FS._store_to_file self data fs) in
  FS.fs_dirs fs ⊆ FS.fs_dirs fs' ∧
  FS.fs_clock fs' = FS.fs_clock fs ∧
  (FS.fs_files fs' !! p ≠ FS.fs_files fs !! p →
   ∃ s d a,
     goes_to s d data ∧
     dict_get data "asset" (PStr "general") = PStr a ∧
     p = FS.path_join (FS.path_join (FS.path_join (FS.data_dir self) s) d)
           (file_name (FS.fs_clock fs) a)).
Proof.
  intros fs'. subst fs'.
  destruct (dict_get data "source" (PStr "unknown")) as [| | | |s| | |] eqn:Hs;
    try (unfold FS._store_to_file; rewrite Hs;
         unfold try_except, bind, lift, raise; cbn;
         by destruct (dict_get data "data_type" (PStr "general"))).
  destruct (dict_get data "data_type" (PStr "general"))
    as [| | | |d| | |] eqn:Hd;
    try (unfold FS._store_to_file; rewrite Hs, Hd;
         unfold try_except, bind, lift, raise; by cbn).
  destruct (dict_get data "asset" (PStr "general")) as [| | | |a| | |] eqn:Ha;
    try (unfold FS._store_to_file; rewrite Hs, Hd, Ha;
         unfold try_except, bind, lift, raise, FS.makedirs, modify; cbn;
         split; [set_solver | by split]).
  rewrite (store_to_file_strings self data fs s d a (conj Hs Hd) Ha).
  destruct (json_serializable (PDict data)); cbn;
    (split; [set_solver|]; split; [reflexivity|]; intros Hdiff;
     exists s, d, a; split; [by split|]; split; [reflexivity|];
     match goal with
     | Hdiff : <[?q := _]> _ !! p ≠ _ |- _ =>
         destruct (decide (q = p)) as [<-|Hne]; [reflexivity|];
         by rewrite lookup_insert_ne in Hdiff
     end).
Qed.

(** X11.  Two records of the same source, data type and asset stored
    within the same second share a file name: the second store overwrites
    the first, and the file holds the second record only. *)
Theorem X11_same_second_overwrites (self : FS.t) (data1 data2 : record)
    (fs : FS.filesystem) (s d a : string) :
  goes_to s d data1 → dict_get data1 "asset" (PStr "general") = PStr a →
  goes_to s d data2 → dict_get data2 "asset" (PStr "general") = PStr a →
  json_serializable (PDict data1) = true →
  json_serializable (PDict data2) = true →
  let filepath :=
    FS.path_join (FS.path_join (FS.path_join (FS.data_dir self) s) d)
      (file_name (FS.fs_clock fs) a) in
  let fs1 := snd (FS._store_to_file self data1 fs) in
  let fs2 := snd (FS._store_to_file self data2 fs1) in
  FS.fs_files fs1 !! filepath = Some [FS.JsonDoc data1] ∧
  fst (FS._store_to_file self data2 fs1) = Ok tt ∧
  FS.fs_files fs2 !! filepath = Some [FS.JsonDoc data2].
Proof.
  intros Hgo1 Ha1 Hgo2 Ha2 Hj1 Hj2 filepath fs1 fs2. subst fs2 fs1.
  rewrite (store_to_file_strings self data1 fs s d a Hgo1 Ha1), Hj1.
  cbn [snd].
  rewrite (store_to_file_strings self data2 _ s d a Hgo2 Ha2), Hj2.
  cbn. fold filepath. by rewrite !lookup_insert_eq.
Qed.

Lemma X11_same_second_overwrites_witness :
  FS.fs_files
    (snd (FS._store_to_file file_sink repriced_record
            (snd (FS._store_to_file file_sink anonymous_record
                    empty_filesystem))))
    !! "data/unknown/general/20240101_000000_BTC-USD.json"
  = Some [FS.JsonDoc repriced_record].
Proof.
  exact (proj2 (proj2 (X11_same_second_overwrites file_sink anonymous_record
                         repriced_record empty_filesystem
                         "unknown" "general" "BTC/USD"
                         (conj eq_refl eq_refl) eq_refl
                         (conj eq_refl eq_refl) eq_refl eq_refl eq_refl))).
Defined.

Lemma str_replace_length (old new : ascii) (s : string) :
  String.length (FS.str_replace old new s) = String.length s.
Proof. induction s as [|c s IH]; simpl; congruence. Qed.

Lemma str_replace_removes (old new : ascii) (s : string) :
  new ≠ old →
  List.Forall (λ c, c ≠ old) (list_ascii_of_string (FS.str_replace old new s)).
Proof.
  intros Hne. induction s as [|c s IH]; simpl; constructor; [|exact IH].
  destruct (Ascii.eqb_spec c old); congruence.
Qed.

Lemma str_replace_keeps_out (old new x : ascii) (s : string) :
  new ≠ x →
  List.Forall (λ c, c ≠ x) (list_ascii_of_string s) →
  List.Forall (λ c, c ≠ x) (list_ascii_of_string (FS.str_replace old new s)).
Proof.
  intros Hne. induction s as [|c s IH]; simpl; intros Hall; [constructor|].
  inversion Hall as [|? ? Hc Hs]; subst. constructor; [|by apply IH].
  by destruct (Ascii.eqb c old).
Qed.

(** X12.  The asset is made safe for a file name: in the name
    [<stamp>_<asset>.json] of the file a successful store writes, the asset
    part has the length of the record's asset and contains neither a slash
    nor a colon, so an asset such as BTC/USDT cannot open a directory of
    its own. *)
Theorem X12_asset_is_sanitised (self : FS.t) (data : record)
    (fs : FS.filesystem) (s d a : string) :
  goes_to s d data →
  dict_get data "asset" (PStr "general") = PStr a →
  json_serializable (PDict data) = true →
  ∃ name,
    FS.fs_files (snd (FS._store_to_file self data fs))
      !! FS.path_join (FS.path_join (FS.path_join (FS.data_dir self) s) d)
           (FS.fs_clock fs +:+ "_" +:+ name +:+ ".json")
    = Some [FS.JsonDoc data] ∧
    String.length name = String.length a ∧
    List.Forall (λ c, c ≠ "/"%char ∧ c ≠ ":"%char) (list_ascii_of_string name).
Proof.
  intros Hgo Ha Hjson.
  exists (FS.str_replace ":" "-" (FS.str_replace "/" "-" a)).
  rewrite (store_to_file_strings self data fs s d a Hgo Ha), Hjson.
  split; [apply lookup_insert_eq|]. split.
  { by rewrite !str_replace_length. }
  apply List.Forall_and.
  - apply str_replace_keeps_out; [done|]. by apply str_replace_removes.
  - by apply str_replace_removes.
Qed.

Lemma X12_asset_is_sanitised_witness :
  ∃ name,
    FS.fs_files (snd (FS._store_to_file file_sink anonymous_record
                        empty_filesystem))
      !! FS.path_join "data/unknown/general"
           ("20240101_000000" +:+ "_" +:+ name +:+ ".json")
    = Some [FS.JsonDoc anonymous_record] ∧
    String.length name = 7 ∧
    List.Forall (λ c, c ≠ "/"%char ∧ c ≠ ":"%char) (list_ascii_of_string name).
Proof.
  exact (X12_asset_is_sanitised file_sink anonymous_record empty_filesystem
           "unknown" "general" "BTC/USD"
           (conj eq_refl eq_refl) eq_refl eq_refl).
Defined.

(** X13.  Source and data type are path components taken as they come: a
    source that begins with a slash makes [os.path.join] drop [data_dir],
    and the record is written under the source's own absolute path,
    whatever the configured directory. *)
Theorem X13_absolute_source_leaves_data_dir (self : FS.t) (data : record)
    (fs : FS.filesystem) (s d a : string) :
  goes_to s d data →
  dict_get data "asset" (PStr "general") = PStr a →
  json_serializable (PDict data) = true →
  FS.startswith_slash s = true →
  let fs' := snd (FS._store_to_file self data fs) in
  FS.path_join s d ∈ FS.fs_dirs fs' ∧
  FS.fs_files fs' !! FS.path_join (FS.path_join s d)
                        (file_name (FS.fs_clock fs) a)
  = Some [FS.JsonDoc data].
Proof.
  intros Hgo Ha Hjson Hs fs'. subst fs'.
  rewrite (store_to_file_strings self data fs s d a Hgo Ha), Hjson.
  cbn [snd FS.fs_dirs FS.fs_files].
  assert (FS.path_join (FS.data_dir self) s = s) as ->.
  { unfold FS.path_join. by rewrite Hs. }
  split; [set_solver | apply lookup_insert_eq].
Qed.

Lemma X13_absolute_source_leaves_data_dir_witness :
  "/tmp/general"
    ∈ FS.fs_dirs (snd (FS._store_to_file file_sink absolute_record
                         empty_filesystem)).
Proof.
  exact (proj1 (X13_absolute_source_leaves_data_dir file_sink absolute_record
                  empty_filesystem "/tmp" "general" "BTC/USD"
                  (conj eq_refl eq_refl) eq_refl eq_refl eq_refl)).
Defined.





(** ** More on the collection loop *)

Lemma collect_and_enqueue_queue (p : Loop.production) (queue : list pyval)
    (l : log) :
  fst (Loop.collect_and_enqueue p queue l) = queue ++ delivered p.
Proof.
  unfold delivered, Loop.collect_and_enqueue.
  destruct (Loop.outcome p) as [data|e]; [|cbn [fst]; by rewrite app_nil_r].
  destruct (truthy data); [|cbn [fst]; by rewrite app_nil_r].
  destruct (isinstance data Clist); cbn [fst]; by rewrite ?app_nil_l.
Qed.

Lemma deliveries_app (c : Loop.collector) (first n m : nat) :
  deliveries c first (n + m)
  = deliveries c first n ++ deliveries c (first + n) m.
Proof. unfold deliveries. by rewrite seq_app, flat_map_app. Qed.

Lemma act_queue (c : Loop.collector) (a : Loop.action) (s : Loop.t) :
  let s' := Loop.act c a s in
  Loop.calls s ≤ Loop.calls s' ∧
  Loop.data_queue s'
  = Loop.data_queue s
      ++ deliveries c (Loop.calls s) (Loop.calls s' - Loop.calls s).
Proof.
  destruct a; simpl.
  - destruct (Loop.at_pc s) eqn:Hpc.
    + destruct (step_at_top c s Hpc) as (_ & _ & _ & _ & _ & Hcalls & _ & Hq).
      rewrite Hcalls, Hq, Nat.sub_diag. simpl. by rewrite app_nil_r.
    + destruct (step_in_collect c s Hpc)
        as (_ & _ & _ & _ & Hcalls & _ & Hq & _).
      rewrite Hcalls, Hq, collect_and_enqueue_queue.
      replace (S (Loop.calls s) - Loop.calls s) with 1 by lia.
      unfold deliveries. simpl. rewrite app_nil_r. split; [lia | done].
    + destruct (step_in_sleep c s _ Hpc)
        as (_ & _ & _ & _ & Hcalls & _ & _ & Hq).
      rewrite Hcalls, Hq, Nat.sub_diag. simpl. by rewrite app_nil_r.
    + unfold Loop.step. rewrite Hpc, Nat.sub_diag. simpl.
      by rewrite app_nil_r.
  - rewrite Nat.sub_diag. simpl. by rewrite app_nil_r.
Qed.

(** X16.  Whatever the interleaving of the loop with calls of [stop], the
    queue is the queue the collector was given followed by what its
    production calls delivered, call after call: nothing is dropped,
    duplicated or reordered, and nothing already queued is removed.  A
    call delivers the items of the list it returns, or the one object it
    returns, and nothing when it raises or returns a false value. *)
Theorem X16_queue_holds_the_deliveries_in_order
    (c : Loop.collector) (schedule : list Loop.action) (s : Loop.t) :
  let s' := Loop.exec c schedule s in
  (Loop.calls s ≤ Loop.calls s' ∧
   Loop.data_queue s'
   = Loop.data_queue s
       ++ deliveries c (Loop.calls s) (Loop.calls s' - Loop.calls s)) ∧
  (∀ p items, Loop.outcome p = Ok (PList items) → delivered p = items) ∧
  (∀ p data, Loop.outcome p = Ok data → truthy data = true →
             isinstance data Clist = false → delivered p = [data]) ∧
  (∀ p data, Loop.outcome p = Ok data → truthy data = false →
             delivered p = []) ∧
  (∀ p e, Loop.outcome p = Raise e → delivered p = []).
Proof.
  split; [|repeat split].
  - revert s. induction schedule as [|a l IH]; intros s.
    { simpl. rewrite Nat.sub_diag. simpl. by rewrite app_nil_r. }
    rewrite exec_cons.
    destruct (act_queue c a s) as [Hle1 Hq1].
    destruct (IH (Loop.act c a s)) as [Hle2 Hq2].
    split; [lia|]. rewrite Hq2, Hq1, <- app_assoc. f_equal.
    replace (Loop.calls (Loop.exec c l (Loop.act c a s)) - Loop.calls s)
      with ((Loop.calls (Loop.act c a s) - Loop.calls s)
            + (Loop.calls (Loop.exec c l (Loop.act c a s))
               - Loop.calls (Loop.act c a s))) by lia.
    rewrite deliveries_app. do 2 f_equal. lia.
  - intros p items Hp. unfold delivered, Loop.collect_and_enqueue.
    rewrite Hp. by destruct items.
  - intros p data Hp Ht Hl. unfold delivered, Loop.collect_and_enqueue.
    by rewrite Hp, Ht, Hl.
  - intros p data Hp Ht. unfold delivered, Loop.collect_and_enqueue.
    by rewrite Hp, Ht.
  - intros p e Hp. unfold delivered, Loop.collect_and_enqueue.
    by rewrite Hp.
Qed.

(** One cycle without interference, from the [while] test to the next. *)
Lemma full_cycle (c : Loop.collector) (s : Loop.t) :
  Loop.at_pc s = Loop.AtTop →
  Loop.running s = true →
  Loop._last_collection_time s = Loop.clock s →
  let s' := Loop.exec c [Loop.Tick; Loop.Tick; Loop.Tick] s in
  Loop.at_pc s' = Loop.AtTop ∧
  Loop.running s' = true ∧
  Loop._last_collection_time s' = Loop.clock s' ∧
  Loop.calls s' = S (Loop.calls s) ∧
  Loop.clock s'
  = (Loop.clock s
     + Z.max (Loop.interval s) (Loop.duration (c (Loop.calls s))))%Z.
Proof.
  intros Hpc Hrun Hlast. simpl.
  destruct (step_at_top c s Hpc)
    as (Hpc1 & _ & Hclk1 & Hlast1 & Hrun1 & Hcalls1 & _).
  rewrite Hrun in Hpc1.
  destruct (step_in_collect c _ Hpc1)
    as (Hpc2 & _ & Hclk2 & Hrun2 & Hcalls2 & _).
  destruct (step_in_sleep c _ _ Hpc2)
    as (Hpc3 & Hclk3 & Hlast3 & Hrun3 & Hcalls3 & _).
  repeat split.
  - exact Hpc3.
  - by rewrite Hrun3, Hrun2, Hrun1.
  - exact Hlast3.
  - by rewrite Hcalls3, Hcalls2, Hcalls1.
  - rewrite Hclk3, Hclk2, Hclk1, Hcalls1. unfold Loop.sleep_time_at.
    rewrite Hlast1, Hlast.
    assert (Loop.interval (Loop.step c s) = Loop.interval s) as ->
      by apply (act_interval c Loop.Tick s).
    lia.
Qed.

Lemma full_cycles (c : Loop.collector) (n : nat) (s : Loop.t) :
  Loop.at_pc s = Loop.AtTop →
  Loop.running s = true →
  Loop._last_collection_time s = Loop.clock s →
  let s' := Loop.exec c (repeat Loop.Tick (3 * n)) s in
  Loop.at_pc s' = Loop.AtTop ∧
  Loop.running s' = true ∧
  Loop._last_collection_time s' = Loop.clock s' ∧
  Loop.calls s' = Loop.calls s + n ∧
  Loop.clock s'
  = (Loop.clock s + cycles_time (Loop.interval s) c (Loop.calls s) n)%Z.
Proof.
  intros Hpc Hrun Hlast. induction n as [|n IH].
  - simpl. repeat split; auto; unfold cycles_time; simpl; lia.
  - replace (3 * S n) with (3 * n + 3) by lia.
    rewrite repeat_app, exec_app.
    destruct IH as (Hpc' & Hrun' & Hlast' & Hcalls' & Hclk').
    destruct (full_cycle c _ Hpc' Hrun' Hlast') as (H1 & H2 & H3 & H4 & H5).
    change (repeat Loop.Tick 3) with [Loop.Tick; Loop.Tick; Loop.Tick].
    repeat split; auto.
    + rewrite H4, Hcalls'. lia.
    + rewrite H5, Hclk', Hcalls', exec_interval.
      unfold cycles_time. replace (S n) with (n + 1) by lia.
      rewrite seq_app, map_app, fold_right_app. simpl.
      generalize (Z.max (Loop.interval s)
                    (Loop.duration (c (Loop.calls s + n)))).
      intros z.
      assert (Hsum : ∀ (l : list Z) (a : Z),
                fold_right Z.add a l = (fold_right Z.add 0 l + a)%Z).
      { induction l as [|x l IHl]; intros a; simpl; [lia|].
        rewrite IHl. lia. }
      rewrite (Hsum _ (z + 0)%Z). lia.
Qed.

Lemma cycles_time_bounds (I : Z) (c : Loop.collector) (first n : nat) :
  (Z.of_nat n * I ≤ cycles_time I c first n)%Z ∧
  ((∀ k, first ≤ k < first + n → (Loop.duration (c k) ≤ I)%Z) →
   cycles_time I c first n = (Z.of_nat n * I)%Z).
Proof.
  unfold cycles_time. revert first. induction n as [|n IH]; intros first.
  { simpl. split; [lia | intros _; lia]. }
  cbn [seq map fold_right]. destruct (IH (S first)) as [Hlow Heq]. split.
  - lia.
  - intros Hfast. rewrite Heq by (intros k Hk; apply Hfast; lia).
    specialize (Hfast first ltac:(lia)). lia.
Qed.

(** X17.  Left alone, the loop starts a cycle every interval at best: the
    [n] cycles after [run] begins take the sum, over the calls, of the
    longer of the interval and the call.  That is never less than [n]
    intervals, and exactly [n] intervals when no call outlasts the
    interval; the time a slow call takes beyond the interval is never made
    up for. *)
Theorem X17_cycles_take_the_longer_of_interval_and_call
    (c : Loop.collector) (self : Loop.t) (n : nat) :
  let s := Loop.run c (repeat Loop.Tick (3 * n)) self in
  let I := Loop.interval self in
  Loop.at_pc s = Loop.AtTop ∧
  Loop.calls s = Loop.calls self + n ∧
  Loop.clock s = (Loop.clock self + cycles_time I c (Loop.calls self) n)%Z ∧
  (Loop.clock self + Z.of_nat n * I ≤ Loop.clock s)%Z ∧
  ((∀ k, Loop.calls self ≤ k < Loop.calls self + n →
         (Loop.duration (c k) ≤ I)%Z) →
   Loop.clock s = (Loop.clock self + Z.of_nat n * I)%Z).
Proof.
  intros s I. subst s. unfold Loop.run.
  destruct (full_cycles c n (Loop.run_enter self) eq_refl eq_refl eq_refl)
    as (Hpc & _ & _ & Hcalls & Hclk).
  change (Loop.calls (Loop.run_enter self)) with (Loop.calls self) in *.
  change (Loop.clock (Loop.run_enter self)) with (Loop.clock self) in *.
  change (Loop.interval (Loop.run_enter self)) with I in *.
  destruct (cycles_time_bounds I c (Loop.calls self) n) as [Hlow Heq].
  repeat split; auto.
  - lia.
  - intros Hfast. rewrite Hclk, (Heq Hfast). lia.
Qed.

Lemma ticks_keep_running (c : Loop.collector) (n : nat) (s : Loop.t) :
  Loop.running s = true →
  Loop.at_pc s ≠ Loop.Exited →
  let s' := Loop.exec c (repeat Loop.Tick n) s in
  Loop.running s' = true ∧ Loop.at_pc s' ≠ Loop.Exited.
Proof.
  revert s. induction n as [|n IH]; intros s Hrun Hpc; [done|].
  cbn [repeat]. rewrite exec_cons. cbn [Loop.act].
  destruct (Loop.at_pc s) eqn:Hat; [| | |done].
  - destruct (step_at_top c s Hat) as (Hpc' & _ & _ & _ & Hrun' & _).
    rewrite Hrun in Hpc'. apply IH; [by rewrite Hrun' | by rewrite Hpc'].
  - destruct (step_in_collect c s Hat) as (Hpc' & _ & _ & Hrun' & _).
    apply IH; [by rewrite Hrun' | by rewrite Hpc'].
  - destruct (step_in_sleep c s _ Hat) as (Hpc' & _ & _ & Hrun' & _).
    apply IH; [by rewrite Hrun' | by rewrite Hpc'].
Qed.

(** X24.  A [stop] that comes before [run] has begun is lost: [run] sets
    the running flag as its first statement, so the loop of a collector
    stopped beforehand runs all the same, and does not exit however long
    it is left to run, unless [stop] is called again. *)
Theorem X24_stop_before_run_is_lost (c : Loop.collector) (self : Loop.t)
    (n : nat) :
  let s := Loop.run c (repeat Loop.Tick n) (Loop.stop self) in
  Loop.running (Loop.stop self) = false ∧
  Loop.running s = true ∧
  Loop.at_pc s ≠ Loop.Exited.
Proof.
  split; [reflexivity|]. unfold Loop.run. by apply ticks_keep_running.
Qed.

(** ** More on the drain worker *)

(** One iteration of the worker on a queue that is not empty. *)
Lemma drain_step_cons {Sink} (store_data : record → M Sink unit)
    (now : string) (data : record) (rest : list record)
    (self : Agent.t Sink) :
  Agent.data_queue self = data :: rest →
  let passed := Agent.with_timestamp now data in
  let outcome := store_data passed (Agent.data_storage self) in
  Agent.drain_step store_data now self =
    Some {| Agent.running := Agent.running self;
            Agent.data_queue := rest;
            Agent.data_storage := snd outcome;
            Agent.lock_held := false;
            Agent.captcha_api_key := Agent.captcha_api_key self;
            Agent.stored := Agent.stored self ++ [passed];
            Agent.logged :=
              Agent.logged self
                ++ [match fst outcome with
                    | Ok _ => (DEBUG, "Processed data")
                    | Raise e =>
                        (ERROR, "Error in data processing: " +:+ exn_str e)
                    end] |}.
Proof.
  intros Hq passed outcome. unfold Agent.drain_step. rewrite Hq.
  rewrite orb_true_r. f_equal.
  unfold Agent._process_data. cbn [snd].
  unfold try_except, Agent.with_lock, try_finally, bind, Agent.on_storage,
    Agent.note_call, Agent.set_lock, Agent.emit, modify, Agent.set_queue.
  cbn. fold passed. fold outcome.
  by destruct outcome as [[[]|e] sink'].
Qed.

(** X18.  A record whose store fails is lost: the worker has taken it off
    the queue, the failure is logged as one error record, the lock is
    released and the worker goes on with the rest of the queue; the record
    is not put back and the store is not tried again. *)
Theorem X18_failed_store_loses_the_record {Sink}
    (store_data : record → M Sink unit) (now : string) (data : record)
    (rest : list record) (self : Agent.t Sink) (e : exn) :
  Agent.data_queue self = data :: rest →
  fst (store_data (Agent.with_timestamp now data) (Agent.data_storage self))
  = Raise e →
  ∃ self',
    Agent.drain_step store_data now self = Some self' ∧
    Agent.data_queue self' = rest ∧
    Agent.running self' = Agent.running self ∧
    Agent.lock_held self' = false ∧
    Agent.stored self'
    = Agent.stored self ++ [Agent.with_timestamp now data] ∧
    Agent.logged self'
    = Agent.logged self
        ++ [(ERROR, "Error in data processing: " +:+ exn_str e)].
Proof.
  intros Hq Hfail. eexists. split; [by apply drain_step_cons|].
  cbn. by rewrite Hfail.
Qed.

Lemma X18_failed_store_loses_the_record_witness :
  ∃ self',
    Agent.drain_step full_sink "2024-01-01T00:00:00+00:00" busy_agent
    = Some self' ∧
    Agent.data_queue self' = [later_record] ∧
    Agent.running self' = true ∧
    Agent.lock_held self' = false ∧
    Agent.stored self'
    = [Agent.with_timestamp "2024-01-01T00:00:00+00:00" first_record] ∧
    Agent.logged self'
    = [(ERROR, "Error in data processing: disk full")].
Proof.
  exact (X18_failed_store_loses_the_record full_sink
           "2024-01-01T00:00:00+00:00" first_record [later_record]
           busy_agent (StorageError "disk full") eq_refl eq_refl).
Defined.

Lemma process_data_queue_stopped {Sink} (store_data : record → M Sink unit)
    (clock : list string) :
  ∀ self : Agent.t Sink,
  Agent.running self = false →
  length (Agent.data_queue self) ≤ length clock →
  let self' := Agent._process_data_queue store_data clock self in
  Agent.running self' = false ∧
  Agent.data_queue self' = [] ∧
  Agent.stored self'
  = Agent.stored self
      ++ zip_with Agent.with_timestamp clock (Agent.data_queue self).
Proof.
  induction clock as [|now later IH]; intros self Hrun Hlen.
  { destruct (Agent.data_queue self) eqn:Hq; simpl in Hlen; [|lia].
    simpl. by rewrite app_nil_r. }
  destruct (Agent.data_queue self) as [|data rest] eqn:Hq.
  - cbn [Agent._process_data_queue]. unfold Agent.drain_step.
    rewrite Hrun, Hq. cbn. rewrite Hq. by rewrite app_nil_r.
  - cbn [Agent._process_data_queue].
    rewrite (drain_step_cons store_data now data rest self Hq).
    match goal with
    | |- context [Agent._process_data_queue _ later ?s] =>
        destruct (IH s) as (Hrun' & Hq' & Hstored');
          [exact Hrun | cbn; simpl in Hlen; lia |]
    end.
    split; [exact Hrun'|]. split; [exact Hq'|].
    rewrite Hstored'. cbn. by rewrite <- app_assoc.
Qed.

(** X19.  After [stop], the worker drains what is left: given a reading
    of the clock for each queued record, [_process_data_queue] hands every
    record to the sink, oldest first and each once, whether or not the
    stores succeed, and ends with the queue empty; its loop then stops at
    the next test. *)
Theorem X19_worker_drains_the_queue_after_stop {Sink}
    (store_data : record → M Sink unit) (clock : list string)
    (self : Agent.t Sink) :
  Agent.running self = false →
  length (Agent.data_queue self) ≤ length clock →
  let self' := Agent._process_data_queue store_data clock self in
  Agent.data_queue self' = [] ∧
  Agent.stored self'
  = Agent.stored self
      ++ zip_with Agent.with_timestamp clock (Agent.data_queue self) ∧
  ∀ now, Agent.drain_step store_data now self' = None.
Proof.
  intros Hrun Hlen self'.
  destruct (process_data_queue_stopped store_data clock self Hrun Hlen)
    as (Hrun' & Hq' & Hstored').
  fold self' in Hrun', Hq', Hstored'.
  split; [exact Hq'|]. split; [exact Hstored'|].
  intros now. unfold Agent.drain_step. by rewrite Hrun', Hq'.
Qed.

Lemma X19_worker_drains_the_queue_after_stop_witness :
  Agent.data_queue
    (Agent._process_data_queue full_sink ["t1"; "t2"] stopped_agent) = [].
Proof.
  refine (proj1 (X19_worker_drains_the_queue_after_stop full_sink
                   ["t1"; "t2"] stopped_agent eq_refl _)).
  simpl. lia.
Defined.

Lemma json_serializable_dict (d : record) :
  json_serializable (PDict d) = true ↔
  ∀ k v, d !! k = Some v → json_serializable v = true.
Proof.
  change (json_serializable (PDict d))
    with (map_fold (λ (_ : string) x acc, json_serializable x && acc) true d).
  induction d as [|k v d Hk Hfold IH] using map_first_key_ind.
  { rewrite map_fold_empty. split; [|done]. intros _ k v Hkv.
    by rewrite lookup_empty in Hkv. }
  rewrite map_fold_insert_first_key by done.
  rewrite andb_true_iff, IH. split.
  - intros [Hv Hd] k' v' Hkv.
    destruct (decide (k' = k)) as [->|Hne].
    + rewrite lookup_insert_eq in Hkv. by simplify_eq.
    + rewrite lookup_insert_ne in Hkv by done. eauto.
  - intros Hall. split.
    + apply (Hall k). by rewrite lookup_insert_eq.
    + intros k' v' Hkv. apply (Hall k').
      rewrite lookup_insert_ne; [done|]. intros ->. congruence.
Qed.

Lemma with_timestamp_serializable (now : string) (data : record) :
  json_serializable (PDict data) = true →
  json_serializable (PDict (Agent.with_timestamp now data)) = true.
Proof.
  rewrite !json_serializable_dict. intros Hall k v.
  unfold Agent.with_timestamp. case_bool_decide; [apply Hall|].
  destruct (decide (k = "timestamp")) as [->|Hne].
  - rewrite lookup_insert_eq. by intros [= <-].
  - rewrite lookup_insert_ne by done. apply Hall.
Qed.

Lemma with_timestamp_get (now : string) (data : record) (k : string)
    (default : pyval) :
  k ≠ "timestamp" →
  dict_get (Agent.with_timestamp now data) k default = dict_get data k default.
Proof.
  intros Hk. unfold Agent.with_timestamp, dict_get.
  case_bool_decide; [done|]. by rewrite lookup_insert_ne.
Qed.

(** X20.  The worker over the file sink: a queued record that has string
    source, data type and asset and can be serialised ends up, timestamp
    included, as the one document of the file named after the clock and
    the asset under [data_dir/source/data_type]; no error is logged and the
    record leaves the queue. *)
Theorem X20_worker_writes_the_stamped_record `{Interp}
    (sink : FS.t) (now : string) (data : record) (rest : list record)
    (self : Agent.t FS.filesystem) (s d a : string) :
  FS.storage_type sink = "file" →
  Agent.data_queue self = data :: rest →
  goes_to s d data →
  dict_get data "asset" (PStr "general") = PStr a →
  json_serializable (PDict data) = true →
  let fs := Agent.data_storage self in
  let filepath :=
    FS.path_join (FS.path_join (FS.path_join (FS.data_dir sink) s) d)
      (file_name (FS.fs_clock fs) a) in
  ∃ self',
    Agent.drain_step (FS.store_data sink) now self = Some self' ∧
    Agent.data_queue self' = rest ∧
    FS.fs_files (Agent.data_storage self') !! filepath
    = Some [FS.JsonDoc (Agent.with_timestamp now data)] ∧
    (∀ p, p ≠ filepath →
          FS.fs_files (Agent.data_storage self') !! p = FS.fs_files fs !! p) ∧
    error_count (Agent.logged self') = error_count (Agent.logged self).
Proof.
  intros Hfile Hq [Hs Hd] Ha Hjson fs filepath.
  eexists. split; [by apply drain_step_cons|].
  cbn [Agent.data_queue Agent.data_storage Agent.logged].
  unfold FS.store_data. rewrite Hfile. cbn [String.eqb Ascii.eqb Bool.eqb].
  rewrite (store_to_file_strings sink (Agent.with_timestamp now data)
             (Agent.data_storage self) s d a).
  - rewrite (with_timestamp_serializable now data Hjson).
    cbn [snd fst FS.fs_files]. fold fs. fold filepath.
    split; [done|]. split; [apply lookup_insert_eq|]. split.
    + intros p Hp. by rewrite lookup_insert_ne.
    + rewrite error_count_app. unfold error_count at 2. simpl. lia.
  - split; by rewrite with_timestamp_get.
  - by rewrite with_timestamp_get.
Qed.

Lemma X20_worker_writes_the_stamped_record_witness :
  ∃ self',
    Agent.drain_step (FS.store_data (H := example_interp) file_sink)
      "2024-01-01T00:00:00+00:00" file_agent = Some self' ∧
    Agent.data_queue self' = [] ∧
    FS.fs_files (Agent.data_storage self')
      !! "data/unknown/general/20240101_000000_BTC-USD.json"
    = Some [FS.JsonDoc (Agent.with_timestamp "2024-01-01T00:00:00+00:00"
                          anonymous_record)] ∧
    (∀ p, p ≠ "data/unknown/general/20240101_000000_BTC-USD.json" →
          FS.fs_files (Agent.data_storage self') !! p
          = FS.fs_files empty_filesystem !! p) ∧
    error_count (Agent.logged self') = 0.
Proof.
  exact (X20_worker_writes_the_stamped_record (H := example_interp)
           file_sink "2024-01-01T00:00:00+00:00" anonymous_record []
           file_agent "unknown" "general" "BTC/USD"
           eq_refl eq_refl (conj eq_refl eq_refl) eq_refl eq_refl).
Defined.

(** ** The collector classes the agent finds *)






(** ** The user-agent provider *)

Lemma random_choice_in (draw : nat) (seq : list string) :
  match Utils.random_choice draw seq with
  | Ok ua => In ua seq
  | Raise _ => seq = []
  end.
Proof.
  unfold Utils.random_choice. destruct seq as [|first rest]; [done|].
  apply nth_In. apply Nat.mod_upper_bound. simpl. lia.
Qed.

(** X23.  [get_random_user_agent] never raises.  It returns a line of the
    file, stripped and not blank, and logs nothing; or, when the file
    cannot be opened or read or holds blank lines only, it returns the
    built-in Firefox user agent and logs one warning. *)
Theorem X23_user_agent_is_a_line_or_the_default
    (strip : string → string) (user_agents_file : string)
    (opened : result (list string)) (draw : nat) (l : log) :
  let r := Utils.get_random_user_agent strip user_agents_file opened draw l in
  ∃ ua, fst r = Ok ua ∧
    ((snd r = l ∧ ua ≠ "" ∧
      ∃ lines line, opened = Ok lines ∧ In line lines ∧ ua = strip line) ∨
     (ua = Utils.default_user_agent ∧
      (∃ msg, snd r = l ++ [(WARNING, msg)]) ∧
      ∀ lines, opened = Ok lines → ∀ line, In line lines → strip line = "")).
Proof.
  intros r. subst r.
  unfold Utils.get_random_user_agent, try_except, bind, lift.
  destruct opened as [lines|e].
  - pose proof (random_choice_in draw
      (map strip (List.filter (λ line, truthy (PStr (strip line))) lines)))
      as Hchoice.
    destruct (Utils.random_choice _ _) as [ua|e] eqn:Hr.
    + exists ua. split; [done|]. left. split; [done|].
      apply List.in_map_iff in Hchoice as (line & <- & Hin).
      apply List.filter_In in Hin as [Hin Hnb].
      split.
      * simpl in Hnb. intros Heq. rewrite Heq in Hnb. done.
      * by exists lines, line.
    + exists Utils.default_user_agent.
      assert (Hnone : ∀ line, In line lines → strip line = "").
      { intros line Hin.
        destruct (String.eqb_spec (strip line) "") as [Heq|Hne]; [done|].
        assert (In line (List.filter
                  (λ line, truthy (PStr (strip line))) lines)) as Hin'.
        { apply List.filter_In. split; [done|]. simpl.
          by destruct (String.eqb_spec (strip line) ""). }
        apply (List.in_map strip) in Hin'. rewrite Hchoice in Hin'.
        destruct Hin'. }
      unfold Utils.random_choice in Hr.
      destruct (map strip _) as [|? ?]; [|done].
      injection Hr as <-. cbn.
      split; [done|]. right. split; [done|]. split; [by eexists|].
      intros lines' [= <-]. exact Hnone.
  - exists Utils.default_user_agent.
    destruct e as [m|m|m|m|cls m];
      try (cbn; split; [done|]; right; split; [done|];
           split; [by eexists | intros ? [=]]).
    destruct (String.eqb cls "FileNotFoundError"); cbn;
      (split; [done|]; right; split; [done|];
       split; [by eexists | intros ? [=]]).
Qed.

(** ** The log of the CAPTCHA solver *)

(** X25.  Every call of [solve_captcha] logs exactly one record: an
    information record when it returns a token, an error record in every
    other case, that is without an API key, when the service reports a
    failure and when the call to the service raises. *)
Theorem X25_solver_logs_one_record (anticaptcha : Utils.solver)
    (site_key url : string) (api_key : pyval) (l : log) :
  let r := Utils.solve_captcha anticaptcha site_key url api_key l in
  ∃ lv msg,
    snd r = l ++ [(lv, msg)] ∧
    (lv = INFO ∨ lv = ERROR) ∧
    (lv = INFO ↔ ∃ token, fst r = Ok token ∧ truthy token = true).
Proof.
  intros r. subst r. unfold Utils.solve_captcha.
  destruct (truthy api_key); cbn [negb].
  - unfold try_except, bind, lift, modify, ret, raise.
    destruct (anticaptcha api_key url site_key) as [token|e].
    + destruct (truthy token) eqn:Htok; cbn.
      * eexists _, _. split; [reflexivity|]. split; [by left|].
        split; [eauto | done].
      * eexists _, _. split; [reflexivity|]. split; [by right|].
        split; [done | by intros (? & [= <-] & ?)].
    + cbn. eexists _, _. split; [reflexivity|]. split; [by right|].
      split; [done | by intros (? & ? & ?)].
  - unfold bind, modify, ret. cbn.
    eexists _, _. split; [reflexivity|]. split; [by right|].
    split; [done | by intros (? & [= <-] & ?)].
Qed.
